(** * Numbering core of obsidian-math-booster: a shallow embedding

    This development embeds the numbering and settings code of
    [src/src/settings/settings.ts] (numeral formatters, prefix inference,
    settings resolution, title formatting, callout header parsing) and
    proves the properties stated in the specification about it.

    JavaScript semantics is written out where the code depends on it:
    [String(n)], [Number.prototype.toString(radix)], [parseInt], unary [+],
    [Array(n).join], [Object.assign] over a heap of objects, and thrown
    exceptions as the [Throw] case of [js_result]. *)

From Stdlib Require Import ZArith String Ascii List Bool Lia.
From stdpp Require Import gmap strings list fin_maps.

Open Scope Z_scope.
Set Warnings "-register-all".

(* ================================================================== *)
(** ** JavaScript primitives *)
(* ================================================================== *)

Module JS.

(** Exceptions thrown by the built-ins the code calls. *)
Inductive js_error := RangeError | TypeError | SyntaxError.

(** A computation that returns a value or throws. *)
Inductive js_result (A : Type) :=
| Ok (a : A)
| Throw (e : js_error).
Arguments Ok {A} a.
Arguments Throw {A} e.

Definition bind {A B} (m : js_result A) (k : A -> js_result B) : js_result B :=
  match m with Ok a => k a | Throw e => Throw e end.

Definition fmap {A B} (f : A -> B) (m : js_result A) : js_result B :=
  match m with Ok a => Ok (f a) | Throw e => Throw e end.

Notation "'let!' x := m 'in' k" := (bind m (fun x => k))
  (at level 200, x name, m at level 100, k at level 200).

(** The numbers the code computes with: integers, or [NaN]. *)
Inductive jsnum := JN (z : Z) | JNaN.

Definition num_add (a b : jsnum) : jsnum :=
  match a, b with JN x, JN y => JN (x + y) | _, _ => JNaN end.

(** Digits of a non-negative integer in base [b], most significant first.
    The fuel is the integer itself, which always suffices for [b >= 2]. *)
Fixpoint digits_fuel (fuel : nat) (b m : Z) : list Z :=
  match fuel with
  | O => []
  | S f => if m <? b then [m] else digits_fuel f b (m / b) ++ [m mod b]
  end.

Definition digits_in_base (b m : Z) : list Z := digits_fuel (S (Z.to_nat m)) b m.

(** The character of a digit, as [Number.prototype.toString] prints it:
    [0-9] then [a-z]. *)
Definition digit_char (d : Z) : ascii :=
  if d <? 10 then ascii_of_nat (48 + Z.to_nat d) else ascii_of_nat (87 + Z.to_nat d).

(** The one-character strings of a string, as [s.split("")] returns them. *)
Fixpoint split_chars (s : string) : list string :=
  match s with
  | EmptyString => []
  | String c r => String c EmptyString :: split_chars r
  end.

Fixpoint string_of_chars (l : list ascii) : string :=
  match l with [] => EmptyString | c :: r => String c (string_of_chars r) end.

(** [m.toString(radix)] for an integer [m] (exact for [|m| < 1e21], where
    JavaScript prints no exponent). *)
Definition toString_radix (m radix : Z) : string :=
  let ds := string_of_chars (map digit_char (digits_in_base radix (Z.abs m))) in
  if m <? 0 then String "-" ds else ds.

(** [String(n)] for an integer [n]. *)
Definition js_String (n : Z) : string := toString_radix n 10.

(** Whitespace and line terminators of JavaScript ([\s], [trim]) among
    the 8-bit code units. *)
Definition is_js_space (c : ascii) : bool :=
  let n := nat_of_ascii c in
  ((9 <=? n) && (n <=? 13))%nat || (n =? 32)%nat || (n =? 160)%nat.

Fixpoint trim_start (s : string) : string :=
  match s with
  | String c r => if is_js_space c then trim_start r else s
  | EmptyString => EmptyString
  end.

Fixpoint rev_string (s : string) : string :=
  match s with
  | EmptyString => EmptyString
  | String c r => append (rev_string r) (String c EmptyString)
  end.

(** [s.trim()]. *)
Definition js_trim (s : string) : string := rev_string (trim_start (rev_string (trim_start s))).

(** Value of a character as a digit in base [radix], if it is one. *)
Definition char_digit (radix : Z) (c : ascii) : option Z :=
  let n := Z.of_nat (nat_of_ascii c) in
  let v := if (48 <=? n) && (n <=? 57) then Some (n - 48)
           else if (97 <=? n) && (n <=? 122) then Some (n - 87)
           else if (65 <=? n) && (n <=? 90) then Some (n - 55)
           else None in
  match v with Some d => if d <? radix then Some d else None | None => None end.

(** Longest prefix of digits in base [radix], with its value and length. *)
Fixpoint digit_prefix (radix : Z) (s : string) (acc : Z) (len : nat) : Z * nat :=
  match s with
  | String c r =>
      match char_digit radix c with
      | Some d => digit_prefix radix r (acc * radix + d) (S len)
      | None => (acc, len)
      end
  | EmptyString => (acc, len)
  end.

(** [parseInt(s, radix)] for [2 <= radix <= 36]: optional sign, then the
    longest prefix of digits; [NaN] when there is no digit. *)
Definition parseInt (s : string) (radix : Z) : jsnum :=
  let s := trim_start s in
  let '(sign, body) :=
    match s with
    | String "-" r => (-1, r)
    | String "+" r => (1, r)
    | _ => (1, s)
    end in
  let '(v, len) := digit_prefix radix body 0 O in
  if (len =? 0)%nat then JNaN else JN (sign * v).

(** Unary [+] on a string ([StringToNumber]) for the decimal integer
    literals the code produces: the empty string is 0, a string of decimal
    digits with an optional sign is its value, anything else is [NaN]. *)
Definition to_number_str (s : string) : jsnum :=
  let s := js_trim s in
  match s with
  | EmptyString => JN 0
  | _ =>
    let '(sign, body) :=
      match s with
      | String "-" r => (-1, r)
      | String "+" r => (1, r)
      | _ => (1, s)
      end in
    let '(v, len) := digit_prefix 10 body 0 O in
    if (len =? 0)%nat then JNaN
    else if (len =? String.length body)%nat then JN (sign * v) else JNaN
  end.

(** Unary [+] on [undefined] or a string. *)
Definition to_number_opt (o : option string) : jsnum :=
  match o with None => JNaN | Some s => to_number_str s end.

(** [arr.pop()]: removes and returns the last element ([undefined] when
    the array is empty). *)
Definition pop {A} (l : list A) : option A * list A :=
  match rev l with
  | [] => (None, [])
  | x :: r => (Some x, rev r)
  end.

(** [arr.join(sep)] where [undefined] entries print as the empty string. *)
Fixpoint join (sep : string) (l : list (option string)) : string :=
  match l with
  | [] => EmptyString
  | [x] => default EmptyString x
  | x :: r => append (append (default EmptyString x) sep) (join sep r)
  end.

Fixpoint repeat_string (n : nat) (s : string) : string :=
  match n with O => EmptyString | S k => append s (repeat_string k s) end.

(** [Array(k).join(sep)]: the constructor throws a [RangeError] unless [k]
    is an array length (an integer in [0, 2^32)); the [k] holes join to
    [k - 1] separators. *)
Definition array_join_holes (k : jsnum) (sep : string) : js_result string :=
  match k with
  | JNaN => Throw RangeError
  | JN k =>
      if (k <? 0) || (2 ^ 32 <=? k) then Throw RangeError
      else Ok (repeat_string (Nat.pred (Z.to_nat k)) sep)
  end.

Definition lower_ascii (c : ascii) : ascii :=
  let n := nat_of_ascii c in
  if ((65 <=? n) && (n <=? 90))%nat then ascii_of_nat (n + 32) else c.

Definition upper_ascii (c : ascii) : ascii :=
  let n := nat_of_ascii c in
  if ((97 <=? n) && (n <=? 122))%nat then ascii_of_nat (n - 32) else c.

Fixpoint map_string (f : ascii -> ascii) (s : string) : string :=
  match s with EmptyString => EmptyString | String c r => String (f c) (map_string f r) end.

(** [s.toLowerCase()] on the code units the formatters produce. *)
Definition toLowerCase (s : string) : string := map_string lower_ascii s.

End JS.

Import JS.

(* ================================================================== *)
(** ** Numeral formatters ([toRomanUpper], [toAlphUpper], [CONVERTER]) *)
(* ================================================================== *)

Module Numeral.

Local Open Scope string_scope.

(** [ROMAN]: hundreds, tens and units, ten entries each. *)
Definition ROMAN : list string :=
  [""; "C"; "CC"; "CCC"; "CD"; "D"; "DC"; "DCC"; "DCCC"; "CM";
   ""; "X"; "XX"; "XXX"; "XL"; "L"; "LX"; "LXX"; "LXXX"; "XC";
   ""; "I"; "II"; "III"; "IV"; "V"; "VI"; "VII"; "VIII"; "IX"].

(** [ROMAN[k]]: [undefined] unless [k] is an index of the array. *)
Definition ROMAN_at (k : jsnum) : option string :=
  match k with
  | JN k => if (0 <=? k)%Z then nth_error ROMAN (Z.to_nat k) else None
  | JNaN => None
  end.

(** [while (i--) { roman = (ROMAN[+digits.pop() + (i * 10)] ?? "") + roman; }]
    run from counter [i]: the body sees [i - 1]. *)
Fixpoint roman_loop (i : nat) (digits : list string) (roman : string)
  : list string * string :=
  match i with
  | O => (digits, roman)
  | S i' =>
      let '(d, rest) := pop digits in
      let entry := ROMAN_at (num_add (to_number_opt d) (JN (Z.of_nat i' * 10))) in
      roman_loop i' rest (default "" entry ++ roman)
  end.

(** [toRomanUpper(num)]. *)
Definition toRomanUpper (num : Z) : js_result string :=
  let digits := split_chars (js_String num) in
  let '(digits', roman) := roman_loop 3 digits "" in
  let thousands := num_add (to_number_str (join "" (map Some digits'))) (JN 1) in
  let! ms := array_join_holes thousands "M" in
  Ok (ms ++ roman).

(** [toRomanLower(num)]. *)
Definition toRomanLower (num : Z) : js_result string :=
  fmap toLowerCase (toRomanUpper num).

Definition ALPH : string := "ABCDEFGHIJKLMNOPQRSTUVWXYZ".

(** [ALPH[k]]: [undefined] unless [k] indexes the string. *)
Definition ALPH_at (k : jsnum) : option string :=
  match k with
  | JN k =>
      if (0 <=? k)%Z then
        match String.get (Z.to_nat k) ALPH with
        | Some c => Some (String c EmptyString)
        | None => None
        end
      else None
  | JNaN => None
  end.

(** [toAlphUpper(num)]:
    [(num - 1).toString(26).split("").map(str => ALPH[parseInt(str, 26)]).join("")]. *)
Definition toAlphUpper (num : Z) : string :=
  join "" (map (fun str => ALPH_at (parseInt str 26))
                (split_chars (toString_radix (num - 1) 26))).

(** [toAlphLower(num)]. *)
Definition toAlphLower (num : Z) : string := toLowerCase (toAlphUpper num).

(** The numeral styles, the keys of [CONVERTER]. *)
Inductive NumberStyle := arabic | alph | Alph | roman | Roman.

Definition NumberStyle_of_string (s : string) : option NumberStyle :=
  if String.eqb s "arabic" then Some arabic
  else if String.eqb s "alph" then Some alph
  else if String.eqb s "Alph" then Some Alph
  else if String.eqb s "roman" then Some roman
  else if String.eqb s "Roman" then Some Roman
  else None.

(** [CONVERTER[style](n)]; the functions that cannot throw return [Ok]. *)
Definition CONVERTER (style : NumberStyle) (n : Z) : js_result string :=
  match style with
  | arabic => Ok (js_String n)
  | alph => Ok (toAlphLower n)
  | Alph => Ok (toAlphUpper n)
  | roman => toRomanLower n
  | Roman => toRomanUpper n
  end.

End Numeral.

(* ================================================================== *)
(** ** Regular expressions used by the code *)
(* ================================================================== *)

Module Regex.

(** Anchored regular expressions without captures: enough for the label
    patterns of [areValidLabels]. [RRep r lo hi] is [r{lo,hi}]. *)
Inductive regex :=
| REps
| RChr (c : ascii)
| RAlt (r1 r2 : regex)
| RSeq (r1 r2 : regex)
| RRep (r : regex) (lo hi : nat).

(** Character comparison, case-insensitive under the [i] flag. For the
    ASCII letters of the patterns, canonicalising both sides with
    [upper_ascii] is what the [i] flag does. *)
Definition chr_eq (ci : bool) (c x : ascii) : bool :=
  if ci then Ascii.eqb (upper_ascii c) (upper_ascii x) else Ascii.eqb c x.

(** All the remainders left after [r] matches a prefix of [s]. *)
Fixpoint rmatch (ci : bool) (r : regex) (s : list ascii) : list (list ascii) :=
  match r with
  | REps => [s]
  | RChr c => match s with x :: t => if chr_eq ci c x then [t] else [] | [] => [] end
  | RAlt r1 r2 => rmatch ci r1 s ++ rmatch ci r2 s
  | RSeq r1 r2 => flat_map (rmatch ci r2) (rmatch ci r1 s)
  | RRep r1 lo hi =>
      (fix go (lo hi : nat) (s : list ascii) : list (list ascii) :=
         match lo with O => [s] | S _ => [] end
         ++ match hi with
            | O => []
            | S h => flat_map (go (Nat.pred lo) h) (rmatch ci r1 s)
            end) lo hi s
  end.

(** [/^r$/.test(s)] (with flag [i] when [ci]). *)
Definition full_match (ci : bool) (r : regex) (s : string) : bool :=
  existsb (fun t => match t with [] => true | _ => false end)
          (rmatch ci r (list_ascii_of_string s)).

Fixpoint rstr (s : string) : regex :=
  match s with
  | EmptyString => REps
  | String c EmptyString => RChr c
  | String c r => RSeq (RChr c) (rstr r)
  end.

Definition ch (c : ascii) : regex := RChr c.
Definition opt (r : regex) : regex := RRep r 0 1.

(** [M{0,m}(CM|CD|D?C{0,3})(XC|XL|L?X{0,3})(IX|IV|V?I{0,3})]. *)
Definition roman_re (m : nat) : regex :=
  RSeq (RRep (ch "M") 0 m)
  (RSeq (RAlt (rstr "CM") (RAlt (rstr "CD") (RSeq (opt (ch "D")) (RRep (ch "C") 0 3))))
  (RSeq (RAlt (rstr "XC") (RAlt (rstr "XL") (RSeq (opt (ch "L")) (RRep (ch "X") 0 3))))
        (RAlt (rstr "IX") (RAlt (rstr "IV") (RSeq (opt (ch "V")) (RRep (ch "I") 0 3)))))).

End Regex.

(* ================================================================== *)
(** ** Prefix inference ([inferNumberPrefix], [areValidLabels]) *)
(* ================================================================== *)

Module Prefix.

Import Regex.
Local Open Scope string_scope.

Definition is_digit (c : ascii) : bool :=
  let n := nat_of_ascii c in ((48 <=? n) && (n <=? 57))%nat.

Definition is_letter (c : ascii) : bool :=
  let n := nat_of_ascii (upper_ascii c) in ((65 <=? n) && (n <=? 90))%nat.

(** [label.match(/^[0-9]+$/)]. *)
Definition is_arabic (s : string) : bool :=
  match s with
  | EmptyString => false
  | _ => forallb is_digit (list_ascii_of_string s)
  end.

(** [label.match(/^[a-z]$/i)]. *)
Definition is_single_letter (s : string) : bool :=
  match s with String c EmptyString => is_letter c | _ => false end.

(** [isValidLabel(label)]. *)
Definition isValidLabel (label : string) : bool :=
  if is_arabic label then true
  else if full_match true (roman_re 4) label then true
  else if is_single_letter label then true
  else false.

(** [label] is truthy: a non-empty string. *)
Definition truthy (s : string) : bool :=
  match s with EmptyString => false | _ => true end.

(** [areValidLabels(labels)]. *)
Definition areValidLabels (labels : list string) : bool :=
  let blankRemoved := filter truthy labels in
  if (2 <=? length blankRemoved)%nat then forallb isValidLabel blankRemoved
  else if (length blankRemoved =? 1)%nat then
    (length labels =? 2)%nat && isValidLabel (nth 0 labels "")
  else false.

(** The character class [[${parseSep}]]: literal characters, ranges
    [a-b], and a leading [^] for negation. A range whose ends are out of
    order makes [new RegExp] throw a [SyntaxError]. (Escapes with a
    backslash and an unescaped [\]] are outside this model.) *)
Inductive class_item := CLit (c : ascii) | CRange (lo hi : ascii).

Fixpoint class_items (l : list ascii) : js_result (list class_item) :=
  match l with
  | [] => Ok []
  | c1 :: "-"%char :: c2 :: rest =>
      if (nat_of_ascii c2 <? nat_of_ascii c1)%nat then Throw SyntaxError
      else let! r := class_items rest in Ok (CRange c1 c2 :: r)
  | c :: rest => let! r := class_items rest in Ok (CLit c :: r)
  end.

Definition item_matches (x : ascii) (it : class_item) : bool :=
  match it with
  | CLit c => Ascii.eqb c x
  | CRange lo hi => ((nat_of_ascii lo <=? nat_of_ascii x) && (nat_of_ascii x <=? nat_of_ascii hi))%nat
  end.

(** [new RegExp(`[${parseSep}]`)] as a predicate on characters. *)
Definition char_class (parseSep : string) : js_result (ascii -> bool) :=
  match list_ascii_of_string parseSep with
  | "^"%char :: body =>
      let! its := class_items body in Ok (fun x => negb (existsb (item_matches x) its))
  | body => let! its := class_items body in Ok (fun x => existsb (item_matches x) its)
  end.

(** [s.split(re)] for a regular expression matching exactly one
    character: the pieces between the separators, empty ones included. *)
Fixpoint split_on (sep : ascii -> bool) (s : string) : list string :=
  match s with
  | EmptyString => [""]
  | String c r =>
      match split_on sep r with
      | [] => [String c ""]
      | p :: ps => if sep c then "" :: p :: ps else String c p :: ps
      end
  end.

(** [source.match(/\s/)?.index ?? source.length]. *)
Fixpoint first_space (s : string) : nat :=
  match s with
  | EmptyString => 0
  | String c r => if is_js_space c then 0 else S (first_space r)
  end.

(** [source.slice(0, k)] for [0 <= k]. *)
Definition head_of (source : string) : string :=
  String.substring 0 (first_space source) source.

(** [labels.slice(0, n)]. *)
Definition slice0 {A} (l : list A) (n : Z) : list A :=
  if (n <? 0)%Z then firstn (Z.to_nat (Z.of_nat (length l) + n)) l
  else firstn (Z.to_nat n) l.

Fixpoint join_str (sep : string) (l : list string) : string :=
  match l with
  | [] => ""
  | [x] => x
  | x :: r => x ++ sep ++ join_str sep r
  end.

(** [s.endsWith(t)]. *)
Definition endsWith (s t : string) : bool :=
  String.eqb (String.substring (String.length s - String.length t) (String.length t) s) t
  && (String.length t <=? String.length s)%nat.

(** [inferNumberPrefix(source, parseSep, printSep, useFirstN)];
    [Ok None] is [undefined]. *)
Definition inferNumberPrefix (source parseSep printSep : string) (useFirstN : Z)
  : js_result (option string) :=
  let head := head_of source in
  let! sep := char_class parseSep in
  let labels := split_on sep head in
  if areValidLabels labels then
    let usedLabels := slice0 labels useFirstN in
    let prefix := join_str printSep usedLabels in
    let prefix := if endsWith prefix printSep then prefix else prefix ++ printSep in
    Ok (Some prefix)
  else Ok None.

End Prefix.

(* ================================================================== *)
(** ** Objects, the heap and [Object.assign] *)
(* ================================================================== *)

Module Heap.

Local Open Scope string_scope.

Definition loc := positive.

(** JavaScript values stored in settings objects. *)
Inductive jsval :=
| JUndefined
| JNull
| JBool (b : bool)
| JNumber (z : Z)
| JString (s : string)
| JRef (l : loc).

(** An object: its own enumerable properties. *)
Abbreviation obj := (gmap string jsval).

(** The heap of objects. *)
Abbreviation heap := (gmap loc obj).

Fixpoint string_props_from (i : nat) (s : string) : obj :=
  match s with
  | EmptyString => ∅
  | String c r => <[js_String (Z.of_nat i) := JString (String c "")]> (string_props_from (S i) r)
  end.

(** The own enumerable properties that [Object.assign] copies from a
    source: those of an object, the indexed characters of a string, none
    for [undefined], [null], booleans and numbers. *)
Definition own_props (h : heap) (v : jsval) : obj :=
  match v with
  | JRef l => default ∅ (h !! l)
  | JString s => string_props_from 0 s
  | _ => ∅
  end.

(** [Object.assign(target, source)]: every own enumerable property of
    the source is written to the target, overwriting. *)
Definition object_assign (h : heap) (target : loc) (source : jsval) : heap :=
  <[target := own_props h source ∪ default ∅ (h !! target)]> h.

(** [Object.assign({}, source)]: a fresh object. *)
Definition alloc (h : heap) : loc := fresh (dom h).

End Heap.

(* ================================================================== *)
(** ** Settings resolution ([getAncestors], [resolveSettings]) *)
(* ================================================================== *)

Module Resolve.

Import Heap.
Local Open Scope string_scope.

(** A vault node ([TAbstractFile]): its path, whether it is the root
    folder ([file instanceof TFolder && file.isRoot()]) and its parent. *)
Inductive afile := AFile (path : string) (is_root_folder : bool) (parent : option afile).

Definition af_path (a : afile) : string := let 'AFile p _ _ := a in p.
Definition af_is_root (a : afile) : bool := let 'AFile _ r _ := a in r.
Definition af_parent (a : afile) : option afile := let 'AFile _ _ p := a in p.

(** The [while (ancestor)] loop of [getAncestors]: pushes [ancestor],
    stops when [file] is the root folder, otherwise moves to the parent. *)
Fixpoint ancestors_loop (file_is_root : bool) (ancestor : afile) : list afile :=
  ancestor :: (if file_is_root then []
               else match af_parent ancestor with
                    | Some p => ancestors_loop file_is_root p
                    | None => []
                    end).

(** [getAncestors(file)]: the pushed nodes, reversed. *)
Definition getAncestors (file : afile) : list afile :=
  rev (ancestors_loop (af_is_root file) file).

(** The global objects [resolveSettings] reads: [DEFAULT_SETTINGS] and the
    per-path store [plugin.settings]. *)
Record globals := {
  DEFAULT_SETTINGS_loc : loc;
  plugin_settings_loc : loc
}.

(** [plugin.settings[path]] ([undefined] when there is no entry). *)
Definition store_entry (G : globals) (h : heap) (path : string) : jsval :=
  default JUndefined (default ∅ (h !! plugin_settings_loc G) !! path).

(** [resolveSettings(settings, plugin, currentFile)]: returns the new heap
    and the location of the returned object. *)
Definition resolveSettings (G : globals) (h : heap) (settings : jsval) (currentFile : afile)
  : heap * loc :=
  let r := alloc h in
  let h := <[r := ∅]> h in
  let h := object_assign h r (JRef (DEFAULT_SETTINGS_loc G)) in
  let ancestors := getAncestors currentFile in
  let h := fold_left (fun h ancestor =>
             object_assign h r (store_entry G h (af_path ancestor))) ancestors h in
  let h := object_assign h r settings in
  (h, r).

(** [DEFAULT_SETTINGS], allocated with its [rename] object ([{}]) at
    [rename]; [lang] is [DEFAULT_LANG] of [default_lang.ts]. *)
Definition DEFAULT_SETTINGS_obj (lang : string) (rename : loc) : obj :=
  list_to_map [
    ("lang", JString lang);
    ("titleSuffix", JString ".");
    ("numberPrefix", JString EmptyString);
    ("numberSuffix", JString EmptyString);
    ("numberInit", JNumber 1);
    ("numberStyle", JString "arabic");
    ("numberDefault", JString "auto");
    ("refFormat", JString "Type + number (+ title)");
    ("noteMathLinkFormat", JString "Type + number (+ title)");
    ("eqNumberPrefix", JString EmptyString);
    ("eqNumberSuffix", JString EmptyString);
    ("eqNumberInit", JNumber 1);
    ("eqNumberStyle", JString "arabic");
    ("eqRefPrefix", JString EmptyString);
    ("eqRefSuffix", JString EmptyString);
    ("labelPrefix", JString EmptyString);
    ("rename", JRef rename);
    ("lineByLine", JBool true);
    ("mathCalloutStyle", JString "framed");
    ("mathCalloutFontInherit", JBool false);
    ("mainMathCallout", JString "None")].

(** The fields of the [MathContextSettings] interface. *)
Definition MathContextSettings_fields : list string :=
  ["lang"; "titleSuffix"; "numberPrefix"; "numberSuffix"; "numberInit";
   "numberStyle"; "numberDefault"; "refFormat"; "noteMathLinkFormat";
   "eqNumberPrefix"; "eqNumberSuffix"; "eqNumberInit"; "eqNumberStyle";
   "eqRefPrefix"; "eqRefSuffix"; "labelPrefix"; "rename"; "lineByLine";
   "mathCalloutStyle"; "mathCalloutFontInherit"; "mainMathCallout"].

(** Closest-first chain of a node and its ancestors. *)
Fixpoint parent_chain (a : afile) : list afile :=
  a :: match af_parent a with Some p => parent_chain p | None => [] end.

(** The value of a key in the first layer (of a closest-first list) that
    has it as an own property. *)
Fixpoint first_set (k : string) (layers : list obj) : option jsval :=
  match layers with
  | [] => None
  | o :: rest => match o !! k with Some v => Some v | None => first_set k rest end
  end.

(** [a ?? b] on lookups: the first if present. *)
Definition or_else (a b : option jsval) : option jsval :=
  match a with Some v => Some v | None => b end.

(** Every location other than [r] reads as in [h]. *)
Definition frame (h : heap) (r : loc) (h' : heap) : Prop :=
  forall l, l <> r -> h' !! l = h !! l.

(** The merged object, layer by layer from the defaults to the local
    settings, each read from the initial heap. *)
Definition merged (G : globals) (h : heap) (settings : jsval) (file : afile) : obj :=
  own_props h settings
  ∪ fold_left (fun acc a => own_props h (store_entry G h (af_path a)) ∪ acc)
      (getAncestors file) (own_props h (JRef (DEFAULT_SETTINGS_loc G)) ∪ ∅).

End Resolve.

(* ================================================================== *)
(** ** Title formatting ([formatTitleWithoutSubtitle], [formatTitle]) *)
(* ================================================================== *)

Module Title.

Import Numeral.
Local Open Scope string_scope.

(** The fields of a [ResolvedMathSettings] object that title formatting
    reads; [None] is [undefined]. *)
Record resolved := {
  s_type : string;
  s_number : string;
  s_title : option string;
  s__index : option Z;
  s_numberInit : option Z;
  s_numberStyle : option string;
  s_numberSuffix : string;
  s_numberPrefix : string;
  s_titleSuffix : string;
  s_profile : string;
  s_inferNumberPrefix : bool;
  s_inferNumberPrefixFromProperty : string;
  s_inferNumberPrefixParseSep : string;
  s_inferNumberPrefixPrintSep : string;
  s_inferNumberPrefixUseFirstN : Z
}.

(** [settings.numberInit = value]. *)
Definition set_numberInit (s : resolved) (v : option Z) : resolved :=
  {| s_type := s_type s; s_number := s_number s; s_title := s_title s;
     s__index := s__index s; s_numberInit := v; s_numberStyle := s_numberStyle s;
     s_numberSuffix := s_numberSuffix s; s_numberPrefix := s_numberPrefix s;
     s_titleSuffix := s_titleSuffix s; s_profile := s_profile s;
     s_inferNumberPrefix := s_inferNumberPrefix s;
     s_inferNumberPrefixFromProperty := s_inferNumberPrefixFromProperty s;
     s_inferNumberPrefixParseSep := s_inferNumberPrefixParseSep s;
     s_inferNumberPrefixPrintSep := s_inferNumberPrefixPrintSep s;
     s_inferNumberPrefixUseFirstN := s_inferNumberPrefixUseFirstN s |}.

(** [plugin.extraSettings.profiles]: profile id to the environment names
    of [profile.body.theorem]. *)
Abbreviation profiles := (gmap string (gmap string string)).

(** The file being formatted: its base name and the property lookup
    [getPropertyOrLinkTextInProperty(app, file, name)]. *)
Record tfile := {
  basename : string;
  property : string -> option string
}.

(** [formatTheoremCalloutType(plugin, settings)]: reading [.body] of an
    undefined profile throws a [TypeError]; the environment name may be
    [undefined]. *)
Definition formatTheoremCalloutType (P : profiles) (s : resolved) : js_result (option string) :=
  match P !! s_profile s with
  | None => Throw TypeError
  | Some theorem => Ok (theorem !! s_type s)
  end.

(** [getNumberPrefix(app, file, settings)]. *)
Definition getNumberPrefix (file : tfile) (s : resolved) : js_result string :=
  if Prefix.truthy (s_numberPrefix s) then Ok (s_numberPrefix s)
  else
    let source := if Prefix.truthy (s_inferNumberPrefixFromProperty s)
                  then property file (s_inferNumberPrefixFromProperty s)
                  else Some (basename file) in
    match source with
    | Some src =>
        if s_inferNumberPrefix s && Prefix.truthy src then
          fmap (default "")
            (Prefix.inferNumberPrefix src (s_inferNumberPrefixParseSep s)
               (s_inferNumberPrefixPrintSep s) (s_inferNumberPrefixUseFirstN s))
        else Ok ""
    | None => Ok ""
    end.

(** [title += x] where [title] may be [undefined]. *)
Definition str_of (o : option string) : string :=
  match o with Some t => t | None => "undefined" end.

(** [formatTitleWithoutSubtitle(plugin, file, settings)]: the title and
    the settings object after the call (it writes [numberInit]). *)
Definition formatTitleWithoutSubtitle (P : profiles) (file : tfile) (s : resolved)
  : js_result (option string * resolved) :=
  let! title := formatTheoremCalloutType P s in
  if Prefix.truthy (s_number s) then
    if String.eqb (s_number s) "auto" then
      match s__index s with
      | Some idx =>
          let s := set_numberInit s (Some (default 1 (s_numberInit s))) in
          let num := idx + default 1 (s_numberInit s) in
          let style := default "arabic" (s_numberStyle s) in
          let! prefix := getNumberPrefix file s in
          match NumberStyle_of_string style with
          | None => Throw TypeError
          | Some st =>
              let! numeral := CONVERTER st num in
              Ok (Some (str_of title ++ " " ++ prefix ++ numeral ++ s_numberSuffix s), s)
          end
      | None => Ok (title, s)
      end
    else Ok (Some (str_of title ++ " " ++ s_number s), s)
  else Ok (title, s).

(** [formatTitle(plugin, file, settings, noTitleSuffix)]. *)
Definition formatTitle (P : profiles) (file : tfile) (s : resolved) (noTitleSuffix : bool)
  : js_result (option string) :=
  let! r := formatTitleWithoutSubtitle P file s in
  let '(title, s) := r in
  let title := match s_title s with
               | Some t => if Prefix.truthy t then Some (str_of title ++ " (" ++ t ++ ")") else title
               | None => title
               end in
  let title := if negb noTitleSuffix && Prefix.truthy (s_titleSuffix s)
               then Some (str_of title ++ s_titleSuffix s) else title in
  Ok title.

End Title.

(* ================================================================== *)
(** ** Theorem-callout headers and the note scan *)
(* ================================================================== *)

Module Callout.

Local Open Scope string_scope.

(** Values produced by [JSON.parse]; numbers keep their literal. *)
Inductive json :=
| JSONNull
| JSONBool (b : bool)
| JSONNumber (lit : string)
| JSONString (s : string)
| JSONArray (l : list json)
| JSONObject (l : list (string * json)).

Definition is_line_terminator (c : ascii) : bool :=
  let n := nat_of_ascii c in ((n =? 10) || (n =? 13))%nat.

Fixpoint skip_sp (l : list ascii) : list ascii :=
  match l with " "%char :: r => skip_sp r | _ => l end.

(** The lazy first group: the characters before the first [\]],
    provided no line terminator comes first. *)
Fixpoint until_bracket (l : list ascii) : option (list ascii * list ascii) :=
  match l with
  | [] => None
  | c :: r =>
      if Ascii.eqb c "]" then Some ([], r)
      else if is_line_terminator c then None
      else match until_bracket r with
           | Some (g, rest) => Some (c :: g, rest)
           | None => None
           end
  end.

(** The greedy second group: the characters up to the first line terminator. *)
Fixpoint until_eol (l : list ascii) : list ascii :=
  match l with
  | [] => []
  | c :: r => if is_line_terminator c then [] else c :: until_eol r
  end.

(** [THEOREM_CALLOUT_PATTERN] matched at the start of [l]: [>], spaces,
    [[!], spaces, [math], spaces, [|], a lazy group ending at the first
    [\]], and a greedy group running to the end of the line; the result
    is the two groups. *)
Definition match_at (l : list ascii) : option (string * string) :=
  match l with
  | ">"%char :: r =>
      match skip_sp r with
      | "["%char :: "!"%char :: r =>
          match skip_sp r with
          | "m"%char :: "a"%char :: "t"%char :: "h"%char :: r =>
              match skip_sp r with
              | "|"%char :: r =>
                  match until_bracket r with
                  | Some (g1, rest) => Some (string_of_list_ascii g1, string_of_list_ascii (until_eol rest))
                  | None => None
                  end
              | _ => None
              end
          | _ => None
          end
      | _ => None
      end
  | _ => None
  end.

(** [THEOREM_CALLOUT_PATTERN.exec(line)]: the leftmost match. *)
Fixpoint exec (l : list ascii) : option (string * string) :=
  match match_at l with
  | Some m => Some m
  | None => match l with [] => None | _ :: r => exec r end
  end.

(** [matchTheoremCallout(line)]. *)
Definition matchTheoremCallout (line : string) : option (string * string) :=
  if Prefix.truthy line then exec (list_ascii_of_string line) else None.

Section WithJSON.

(** [JSON.parse]: a value, or [None] when it throws a [SyntaxError]. *)
Variable JSON_parse : string -> option json.

(** [readTheoremCalloutSettingsAndTitle(line)]; [Ok None] is [undefined]. *)
Definition readTheoremCalloutSettingsAndTitle (line : string)
  : js_result (option (json * string)) :=
  match matchTheoremCallout line with
  | Some (blob, rest) =>
      match JSON_parse blob with
      | Some settings => Ok (Some (settings, js_trim rest))
      | None => Throw SyntaxError
      end
  | None => Ok None
  end.

(** A section of the structural cache: its type, first line and the text
    of that line. *)
Record section := {
  sec_type : string;
  sec_line : Z;
  sec_header : string
}.

(** An index entry: a theorem callout (line, settings, title, [_index])
    or a display equation (line, rank). *)
Inductive index_item :=
| TheoremItem (line : Z) (settings : json) (title : string) (index : nat)
| EquationItem (line : Z) (index : nat).

(** The [type] field of callout settings, as a counter key. *)
Definition callout_type (settings : json) : string :=
  match settings with
  | JSONObject fields =>
      match List.find (fun kv => String.eqb (fst kv) "type") (rev fields) with
      | Some (_, JSONString t) => t
      | _ => "undefined"
      end
  | _ => "undefined"
  end.

(** Modelled from the spec: the note scan of the indexer (the indexer
    module is not among the sources). Following section 4.5 of the spec,
    every callout section whose header reads as a theorem callout becomes
    an item ranked among the callouts of its [type]; a header whose
    settings fail to parse is a per-item failure and is skipped; every
    display-math section becomes an equation item ranked among equations. *)
Fixpoint scan (counts : gmap string nat) (eqs : nat) (secs : list section) : list index_item :=
  match secs with
  | [] => []
  | s :: rest =>
      if String.eqb (sec_type s) "callout" then
        match readTheoremCalloutSettingsAndTitle (sec_header s) with
        | Ok (Some (settings, title)) =>
            let ty := callout_type settings in
            let i := default O (counts !! ty) in
            TheoremItem (sec_line s) settings title i :: scan (<[ty := S i]> counts) eqs rest
        | Ok None => scan counts eqs rest
        | Throw _ => scan counts eqs rest
        end
      else if String.eqb (sec_type s) "math" then
        EquationItem (sec_line s) eqs :: scan counts (S eqs) rest
      else scan counts eqs rest
  end.

(** Indexing a note: the scan from empty counters. *)
Definition scan_note (secs : list section) : list index_item := scan ∅ O secs.

End WithJSON.

(** A concrete [JSON.parse] (RFC 8259 grammar) for evaluating examples.
    Code units above 255 of [\uXXXX] escapes do not fit 8-bit strings and
    are read as ["?"]. *)
Definition is_json_ws (c : ascii) : bool :=
  let n := nat_of_ascii c in ((n =? 9) || (n =? 10) || (n =? 13) || (n =? 32))%nat.

Fixpoint skip_ws (l : list ascii) : list ascii :=
  match l with c :: r => if is_json_ws c then skip_ws r else l | [] => [] end.

Definition hex_val (c : ascii) : option nat :=
  match char_digit 16 c with Some d => Some (Z.to_nat d) | None => None end.

Fixpoint parse_string_body_fuel (fuel : nat) (l : list ascii) : option (list ascii * list ascii) :=
  match fuel, l with
  | O, _ => None
  | _, [] => None
  | S fuel, c :: r =>
      if Ascii.eqb c "034" then Some ([], r)
      else if Ascii.eqb c "\" then
        let esc :=
          match r with
          | e :: r' =>
              if Ascii.eqb e "034" then Some (e, r')
              else if Ascii.eqb e "\" then Some (e, r')
              else if Ascii.eqb e "/" then Some (e, r')
              else if Ascii.eqb e "b" then Some (ascii_of_nat 8, r')
              else if Ascii.eqb e "f" then Some (ascii_of_nat 12, r')
              else if Ascii.eqb e "n" then Some (ascii_of_nat 10, r')
              else if Ascii.eqb e "r" then Some (ascii_of_nat 13, r')
              else if Ascii.eqb e "t" then Some (ascii_of_nat 9, r')
              else if Ascii.eqb e "u" then
                match r' with
                | h1 :: h2 :: h3 :: h4 :: r'' =>
                    match hex_val h1, hex_val h2, hex_val h3, hex_val h4 with
                    | Some a, Some b, Some c, Some d =>
                        let code := (((a * 16 + b) * 16 + c) * 16 + d)%nat in
                        Some (if (code <? 256)%nat then ascii_of_nat code else "?"%char, r'')
                    | _, _, _, _ => None
                    end
                | _ => None
                end
              else None
          | [] => None
          end in
        match esc with
        | Some (x, r') =>
            match parse_string_body_fuel fuel r' with Some (t, rest) => Some (x :: t, rest) | None => None end
        | None => None
        end
      else if (nat_of_ascii c <? 32)%nat then None
      else match parse_string_body_fuel fuel r with Some (t, rest) => Some (c :: t, rest) | None => None end
  end.

(** The characters of a string literal after its opening quote, and the
    rest after the closing quote. *)
Definition parse_string_body (l : list ascii) : option (list ascii * list ascii) :=
  parse_string_body_fuel (length l) l.

Fixpoint take_digits (l : list ascii) : list ascii * list ascii :=
  match l with
  | c :: r => if Prefix.is_digit c then let '(d, rest) := take_digits r in (c :: d, rest) else ([], l)
  | [] => ([], [])
  end.

(** A number: [-?(0|[1-9][0-9]* )(\.[0-9]+)?([eE][+-]?[0-9]+)?]. *)
Definition parse_number (l : list ascii) : option (string * list ascii) :=
  let '(sign, l1) := match l with "-"%char :: r => (["-"%char], r) | _ => ([], l) end in
  let int_part :=
    match l1 with
    | "0"%char :: r => Some (["0"%char], r)
    | c :: _ => if Prefix.is_digit c then Some (take_digits l1) else None
    | [] => None
    end in
  match int_part with
  | None => None
  | Some (ip, l2) =>
      let frac :=
        match l2 with
        | "."%char :: r => let '(d, rest) := take_digits r in
                           match d with [] => None | _ => Some ("."%char :: d, rest) end
        | _ => Some ([], l2)
        end in
      match frac with
      | None => None
      | Some (fp, l3) =>
          let expo :=
            match l3 with
            | e :: r =>
                if Ascii.eqb e "e" || Ascii.eqb e "E" then
                  let '(sg, r') := match r with
                                   | "+"%char :: r' => (["+"%char], r')
                                   | "-"%char :: r' => (["-"%char], r')
                                   | _ => ([], r)
                                   end in
                  let '(d, rest) := take_digits r' in
                  match d with [] => None | _ => Some (e :: sg ++ d, rest) end
                else Some ([], l3)
            | [] => Some ([], l3)
            end in
          match expo with
          | None => None
          | Some (xp, l4) => Some (string_of_list_ascii (sign ++ ip ++ fp ++ xp), l4)
          end
      end
  end.

Fixpoint parse_value (fuel : nat) (l : list ascii) : option (json * list ascii) :=
  match fuel with
  | O => None
  | S f =>
    match skip_ws l with
    | "n"%char :: "u"%char :: "l"%char :: "l"%char :: r => Some (JSONNull, r)
    | "t"%char :: "r"%char :: "u"%char :: "e"%char :: r => Some (JSONBool true, r)
    | "f"%char :: "a"%char :: "l"%char :: "s"%char :: "e"%char :: r => Some (JSONBool false, r)
    | "034"%char :: r =>
        match parse_string_body r with
        | Some (t, rest) => Some (JSONString (string_of_list_ascii t), rest)
        | None => None
        end
    | "["%char :: r =>
        match skip_ws r with
        | "]"%char :: rest => Some (JSONArray [], rest)
        | _ => match parse_elements f r with
               | Some (vs, rest) => Some (JSONArray vs, rest)
               | None => None
               end
        end
    | "{"%char :: r =>
        match skip_ws r with
        | "}"%char :: rest => Some (JSONObject [], rest)
        | _ => match parse_members f r with
               | Some (ms, rest) => Some (JSONObject ms, rest)
               | None => None
               end
        end
    | l' => match parse_number l' with
            | Some (lit, rest) => Some (JSONNumber lit, rest)
            | None => None
            end
    end
  end
with parse_elements (fuel : nat) (l : list ascii) : option (list json * list ascii) :=
  match fuel with
  | O => None
  | S f =>
    match parse_value f l with
    | Some (v, r) =>
        match skip_ws r with
        | ","%char :: r' =>
            match parse_elements f r' with Some (vs, rest) => Some (v :: vs, rest) | None => None end
        | "]"%char :: rest => Some ([v], rest)
        | _ => None
        end
    | None => None
    end
  end
with parse_members (fuel : nat) (l : list ascii) : option (list (string * json) * list ascii) :=
  match fuel with
  | O => None
  | S f =>
    match skip_ws l with
    | "034"%char :: r =>
        match parse_string_body r with
        | Some (k, r1) =>
            match skip_ws r1 with
            | ":"%char :: r2 =>
                match parse_value f r2 with
                | Some (v, r3) =>
                    match skip_ws r3 with
                    | ","%char :: r4 =>
                        match parse_members f r4 with
                        | Some (ms, rest) => Some ((string_of_list_ascii k, v) :: ms, rest)
                        | None => None
                        end
                    | "}"%char :: rest => Some ([(string_of_list_ascii k, v)], rest)
                    | _ => None
                    end
                | None => None
                end
            | _ => None
            end
        | None => None
        end
    | _ => None
    end
  end.

(** [JSON.parse(text)]: a value followed by nothing but whitespace. *)
Definition JSON_parse (text : string) : option json :=
  let l := list_ascii_of_string text in
  match parse_value (2 * length l + 2) l with
  | Some (v, rest) => match skip_ws rest with [] => Some v | _ => None end
  | None => None
  end.

End Callout.

(* ================================================================== *)
(** ** Reading Roman numerals back *)
(* ================================================================== *)

Module RomanParse.

(** Value of a Roman digit. *)
Definition roman_digit (c : ascii) : option Z :=
  if Ascii.eqb c "I" then Some 1
  else if Ascii.eqb c "V" then Some 5
  else if Ascii.eqb c "X" then Some 10
  else if Ascii.eqb c "L" then Some 50
  else if Ascii.eqb c "C" then Some 100
  else if Ascii.eqb c "D" then Some 500
  else if Ascii.eqb c "M" then Some 1000
  else None.

(** The usual reverse parse: a digit smaller than the next one is
    subtracted, any other digit is added. *)
Fixpoint roman_value_list (l : list ascii) : option Z :=
  match l with
  | [] => Some 0
  | c :: r =>
      match roman_digit c, roman_value_list r with
      | Some v, Some rest =>
          match r with
          | c' :: _ =>
              match roman_digit c' with
              | Some v' => if v <? v' then Some (rest - v) else Some (rest + v)
              | None => None
              end
          | [] => Some (rest + v)
          end
      | _, _ => None
      end
  end.

Definition roman_value (s : string) : option Z := roman_value_list (list_ascii_of_string s).

(** Classic subtractive notation up to 3999: a non-empty string matching
    [^M{0,3}(CM|CD|D?C{0,3})(XC|XL|L?X{0,3})(IX|IV|V?I{0,3})$]. *)
Definition is_classic_roman (s : string) : bool :=
  Prefix.truthy s && Regex.full_match false (Regex.roman_re 3) s.

(** [toRomanUpper n] is a classic numeral that reads back as [n]. *)
Definition roman_roundtrip_ok (n : Z) : bool :=
  match Numeral.toRomanUpper n with
  | Ok s => is_classic_roman s && match roman_value s with Some v => v =? n | None => false end
  | Throw _ => false
  end.

Definition supported_range : list Z := map Z.of_nat (seq 1 3999).

(** The string the loop of [toRomanUpper] builds from three digits. *)
Definition roman_of_digits (a b c : Z) : string :=
  snd (Numeral.roman_loop 3 (map (fun d => String (digit_char d) EmptyString) [a; b; c]) EmptyString).

(** Below 1000, [toRomanUpper] returns what the loop builds from the
    three digits of the number, leading zeros included. *)
Definition below_1000_ok (m : Z) : bool :=
  match Numeral.toRomanUpper m with
  | Ok s => String.eqb s (roman_of_digits (m / 100) ((m / 10) mod 10) (m mod 10))
  | Throw _ => false
  end.

Definition below_1000 : list Z := map Z.of_nat (seq 0 1000).

(** On [0, -1, ..., -999], [toRomanUpper] returns a string exactly from
    [-99] up, and otherwise throws a [RangeError]. *)
Definition roman_nonpositive_ok (n : Z) : bool :=
  match Numeral.toRomanUpper n with
  | Ok _ => -99 <=? n
  | Throw RangeError => n <? -99
  | Throw _ => false
  end.

Definition nonpositive_small_range : list Z := map (fun k => - Z.of_nat k) (seq 0 1000).

End RomanParse.

(* ================================================================== *)
(** ** String, array and path utilities of [settings.ts] *)
(* ================================================================== *)

Module Utils.

Import Prefix.
Local Open Scope string_scope.

Definition is_nl (c : ascii) : bool := Ascii.eqb c "010".

Definition nl : string := String "010" EmptyString.

(** [increaseQuoteLevel(content)]: [content.split("\n")], each line
    prefixed with ["> "], joined with ["\n"]. *)
Definition increaseQuoteLevel (content : string) : string :=
  join_str nl (map (fun line => "> " ++ line) (split_on is_nl content)).

(** Greedy whitespace: [\s] repeated as often as it matches. *)
Fixpoint skip_js_space (l : list ascii) : list ascii :=
  match l with
  | c :: r => if is_js_space c then skip_js_space r else l
  | [] => []
  end.

(** One marker: [>] then greedy whitespace. After the greedy
    whitespace the next character is not whitespace, so giving spaces
    back can never let a following [>] match: the greedy reading is the
    only one. *)
Definition quote_marker (l : list ascii) : option (list ascii) :=
  match l with
  | ">"%char :: r => Some (skip_js_space r)
  | _ => None
  end.

(** [k] markers ([>] then greedy whitespace) at the start of [l]. *)
Fixpoint quote_markers (k : nat) (l : list ascii) : option (list ascii) :=
  match k with
  | O => Some l
  | S k' => match quote_marker l with Some r => quote_markers k' r | None => None end
  end.

(** [text.match(quoteSymbolPattern)] for the pattern of [k] markers then
    a group of any characters: the leftmost position where the markers
    match; the last group runs to the first line terminator. *)
Fixpoint quote_exec (k : nat) (l : list ascii) : option (list ascii) :=
  match quote_markers k l with
  | Some r => Some (Callout.until_eol r)
  | None => match l with [] => None | _ :: t => quote_exec k t end
  end.

(** [nodeTextQuoteSymbolTrimmed(node, state, quoteLevel)] on the node's
    text [nodeText(node, state)]: the last group of the match, or
    [undefined]. *)
Definition nodeTextQuoteSymbolTrimmed (text : string) (quoteLevel : nat) : option string :=
  option_map string_of_list_ascii (quote_exec quoteLevel (list_ascii_of_string text)).

(** [p :: ps] with [c] put in front of the current piece [p]. *)
Definition cons_char (c : ascii) (ps : list string) : list string :=
  match ps with p :: ps => String c p :: ps | [] => [String c EmptyString] end.

(** [text.split(/\r?\n/)]: at each position a separator [\r\n] or [\n]
    is tried first. *)
Fixpoint split_lines (l : list ascii) : list string :=
  match l with
  | [] => [EmptyString]
  | c :: r =>
      if Ascii.eqb c "010" then EmptyString :: split_lines r
      else match r with
           | c' :: r' =>
               if Ascii.eqb c "013" && Ascii.eqb c' "010" then EmptyString :: split_lines r'
               else cons_char c (split_lines r)
           | [] => cons_char c (split_lines r)
           end
  end.

(** [splitIntoLines(text)]. *)
Definition splitIntoLines (text : string) : list string := split_lines (list_ascii_of_string text).

(** A relative index of [splice] and [slice]: negative counts from the
    end (floored at 0), and it is capped at the length. *)
Definition relative_index (len : nat) (k : Z) : nat :=
  if (k <? 0)%Z then Z.to_nat (Z.max (Z.of_nat len + k) 0) else Nat.min (Z.to_nat k) len.

(** [array.splice(start, deleteCount, ...items)]: the removed elements
    and the array after the call. *)
Definition splice {A} (arr : list A) (start deleteCount : Z) (items : list A) : list A * list A :=
  let s := relative_index (length arr) start in
  let dc := Nat.min (Z.to_nat deleteCount) (length arr - s) in
  (firstn dc (skipn s arr), (firstn s arr ++ items ++ skipn (s + dc) arr)%list).

Fixpoint indexOf_from {A} `{EqDecision A} (x : A) (l : list A) (i : Z) : Z :=
  match l with
  | [] => -1
  | y :: r => if decide (y = x) then i else indexOf_from x r (i + 1)
  end.

(** [array.indexOf(item)]: [-1] when absent. *)
Definition indexOf {A} `{EqDecision A} (l : list A) (x : A) : Z := indexOf_from x l 0.

(** [removeFrom(item, array)]: [array.splice(array.indexOf(item), 1)];
    the removed elements and the array after the call. *)
Definition removeFrom {A} `{EqDecision A} (item : A) (array : list A) : list A * list A :=
  splice array (indexOf array item) 1 [].

(** [insertAt(array, item, index)]: [array.splice(index, 0, item)]; the
    array after the call. *)
Definition insertAt {A} (array : list A) (item : A) (index : Z) : list A :=
  snd (splice array index 0 [item]).

Fixpoint lastIndexOf_from (c : ascii) (l : list ascii) (i best : Z) : Z :=
  match l with
  | [] => best
  | x :: r => lastIndexOf_from c r (i + 1) (if Ascii.eqb x c then i else best)
  end.

(** [s.lastIndexOf(c)] for a one-character [c]. *)
Definition lastIndexOf (s : string) (c : ascii) : Z :=
  lastIndexOf_from c (list_ascii_of_string s) 0 (-1).

(** [s.slice(start, end)], [end] absent meaning the length. *)
Definition js_slice (s : string) (start : Z) (end_ : option Z) : string :=
  let len := String.length s in
  let from := relative_index len start in
  let to := match end_ with Some e => relative_index len e | None => len end in
  string_of_list_ascii (firstn (to - from) (skipn from (list_ascii_of_string s))).

(** [pathToName(path)]. *)
Definition pathToName (path : string) : string :=
  js_slice path (lastIndexOf path "/" + 1) None.

(** [pathToBaseName(path)]. *)
Definition pathToBaseName (path : string) : string :=
  let name := pathToName path in
  let index := lastIndexOf name "." in
  if (0 <=? index)%Z then js_slice name 0 (Some index) else name.

Record range := { r_from : Z; r_to : Z }.

(** [hasOverlap(range1, range2)]. *)
Definition hasOverlap (range1 range2 : range) : bool :=
  (r_from range1 <=? r_to range2)%Z && (r_from range2 <=? r_to range1)%Z.

(** No character of [s] is a separator. *)
Definition nosep (sep : ascii -> bool) (s : string) : Prop :=
  Forall (fun c => sep c = false) (list_ascii_of_string s).

End Utils.

(* ================================================================== *)
(** ** Files of the vault: [isEqualToOrChildOf], [filterCallback],
    [iterDescendantFiles], [generateBlockID] *)
(* ================================================================== *)

Module Files.

Import Resolve.
Local Open Scope string_scope.

(** Vault entries are unique objects per path, so [==] on them is
    equality of the nodes. *)
Definition afile_eq_dec_def : forall a b : afile, {a = b} + {a <> b}.
Proof.
  fix IH 1. intros [p r q] [p' r' q'].
  destruct (string_dec p p') as [<-|Hp]; [|right; congruence].
  destruct (bool_dec r r') as [<-|Hr]; [|right; congruence].
  destruct q as [x|], q' as [y|].
  - destruct (IH x y) as [<-|Hxy]; [left; reflexivity|right; congruence].
  - right; congruence.
  - right; congruence.
  - left; reflexivity.
Defined.

#[global] Instance afile_eq_dec : EqDecision afile := afile_eq_dec_def.

(** The [while (true)] loop of [isEqualToOrChildOf] from [ancestor]; the
    fuel bounds its turns, [None] when it runs out (the loop has not
    returned). *)
Fixpoint ancestor_loop (fuel : nat) (ancestor : option afile) (file2 : afile) : option bool :=
  match fuel with
  | O => None
  | S f =>
      if decide (ancestor = Some file2) then Some true
      else match ancestor with
           | Some a => if af_is_root a then Some false else ancestor_loop f (af_parent a) file2
           | None => ancestor_loop f None file2
           end
  end.

(** [isEqualToOrChildOf(file1, file2)]. *)
Definition isEqualToOrChildOf (fuel : nat) (file1 file2 : afile) : option bool :=
  if decide (file1 = file2) then Some true
  else if af_is_root file2 then Some true
  else ancestor_loop fuel (af_parent file1) file2.

(** A [TAbstractFile] of the file list: a [TFile] has an extension, a
    [TFolder] has none. *)
Record entry := { e_file : afile; e_extension : option string }.

(** The loop of [filterCallback] over [plugin.excludedFiles]. *)
Fixpoint excluded_loop (fuel : nat) (getAbstractFileByPath : string -> option afile)
    (abstractFile : afile) (paths : list string) : option bool :=
  match paths with
  | [] => Some true
  | path :: rest =>
      match getAbstractFileByPath path with
      | Some file =>
          match isEqualToOrChildOf fuel abstractFile file with
          | Some true => Some false
          | Some false => excluded_loop fuel getAbstractFileByPath abstractFile rest
          | None => None
          end
      | None => excluded_loop fuel getAbstractFileByPath abstractFile rest
      end
  end.

(** [FileSuggestModal.filterCallback(abstractFile)] (modals.ts). *)
Definition filterCallback (fuel : nat) (getAbstractFileByPath : string -> option afile)
    (excludedFiles : list string) (abstractFile : entry) : option bool :=
  if match e_extension abstractFile with Some ext => negb (String.eqb ext "md") | None => false end
  then Some false
  else if af_is_root (e_file abstractFile) then Some false
  else excluded_loop fuel getAbstractFileByPath (e_file abstractFile) excludedFiles.

(** A vault subtree, for [iterDescendantFiles]. *)
Inductive vnode :=
| VFile (path extension : string)
| VFolder (path : string) (children : list vnode).

(** [iterDescendantFiles(file, callback, extension)]: the files passed to
    [callback], in call order. *)
Fixpoint iterDescendantFiles (file : vnode) (extension : option string) : list vnode :=
  match file with
  | VFile _ ext =>
      if match extension with None => true | Some e => String.eqb ext e end then [file] else []
  | VFolder _ children =>
      (fix go (l : list vnode) : list vnode :=
         match l with [] => [] | c :: r => (iterDescendantFiles c extension ++ go r)%list end)
        children
  end.

(** [[...Array(length)].map(() => Math.floor(Math.random() * 16).toString(16))]
    with the values of [Math.floor(Math.random() * 16)] taken from [rnd];
    [None] when [rnd] runs out. *)
Fixpoint draw_id (length : nat) (rnd : list Z) : option (list (option string) * list Z) :=
  match length with
  | O => Some ([], rnd)
  | S k =>
      match rnd with
      | [] => None
      | d :: r =>
          match draw_id k r with
          | Some (parts, rest) => Some (Some (toString_radix d 16) :: parts, rest)
          | None => None
          end
      end
  end.

(** [generateBlockID(cache, length)] with [cache.blocks] given by
    [blocks] ([None] when absent); the fuel bounds the turns of the
    [while (true)] loop. *)
Fixpoint generateBlockID (fuel : nat) (blocks : option (gset string)) (length : nat)
    (rnd : list Z) : option string :=
  match fuel with
  | O => None
  | S f =>
      match draw_id length rnd with
      | None => None
      | Some (parts, rest) =>
          let id := join EmptyString parts in
          match blocks with
          | Some b => if bool_decide (id ∈ b) then generateBlockID f blocks length rest else Some id
          | None => Some id
          end
      end
  end.

(** Every node of the parent chain of [a] is the root exactly when it has
    no parent: the chain ends in the root folder, and only there. *)
Definition chain_wf (a : afile) : Prop :=
  forall x, In x (parent_chain a) -> (af_is_root x = true <-> af_parent x = None).

(** The characters [0-9a-f] that [toString(16)] prints for one digit. *)
Definition is_hex_char (c : ascii) : bool :=
  let n := nat_of_ascii c in ((48 <=? n) && (n <=? 57) || (97 <=? n) && (n <=? 102))%nat.

End Files.

Module CalloutRead.

Import Callout.

(** [readTheoremCalloutSettings(line)]. *)
Definition readTheoremCalloutSettings (parse : string -> option json) (line : string)
  : js_result (option json) :=
  let! r := readTheoremCalloutSettingsAndTitle parse line in Ok (option_map fst r).

(** [readTheoremCalloutTitle(line)]. *)
Definition readTheoremCalloutTitle (parse : string -> option json) (line : string)
  : js_result (option string) :=
  let! r := readTheoremCalloutSettingsAndTitle parse line in Ok (option_map snd r).

End CalloutRead.

(** A small vault: the root folder, a folder [a] and a note [a/b.md]. *)
Module FilesExample.
Import Resolve Files.
Local Open Scope string_scope.

Definition vault_root : afile := AFile "/" true None.
Definition folder_a : afile := AFile "a" false (Some vault_root).
Definition note_b : afile := AFile "a/b.md" false (Some folder_a).

Definition get_by_path (path : string) : option afile :=
  if String.eqb path "a" then Some folder_a
  else if String.eqb path "a/b.md" then Some note_b
  else if String.eqb path "/" then Some vault_root else None.

Definition tree : vnode :=
  VFolder "a" [VFile "a/b.md" "md"; VFile "a/c.png" "png"; VFolder "a/d" [VFile "a/d/e.md" "md"]].

End FilesExample.


(* ================================================================== *)
(** ** A concrete vault used by the examples *)
(* ================================================================== *)

Module Scenario.

Import Heap Resolve.
Local Open Scope positive_scope.
Local Open Scope string_scope.

(** The root folder, a folder [notes] and a note [notes/a.md]. *)
Definition vault_root : afile := AFile "/" true None.
Definition notes_folder : afile := AFile "notes" false (Some vault_root).
Definition note_a : afile := AFile "notes/a.md" false (Some notes_folder).

(** [DEFAULT_SETTINGS] at 1 (its [rename] object at 2), [plugin.settings] at 3. *)
Definition globals_ex : globals := {| DEFAULT_SETTINGS_loc := 1; plugin_settings_loc := 3 |}.

(** A store with settings for the root folder and for [notes], and a
    local override object at 6. *)
Definition heap_layers : heap :=
  list_to_map [
    (1%positive, DEFAULT_SETTINGS_obj "en-US" 2);
    (2%positive, ∅);
    (3%positive, list_to_map [("/", JRef 4); ("notes", JRef 5)]);
    (4%positive, list_to_map [("numberPrefix", JString "R."); ("numberSuffix", JString "*")]);
    (5%positive, list_to_map [("numberPrefix", JString "N.")]);
    (6%positive, list_to_map [("type", JString "lemma"); ("numberSuffix", JString EmptyString)])].

(** A store whose entry for [notes/a.md] holds an explicit [undefined]. *)
Definition heap_undefined_entry : heap :=
  list_to_map [
    (1%positive, DEFAULT_SETTINGS_obj "en-US" 2);
    (2%positive, ∅);
    (3%positive, list_to_map [("notes/a.md", JRef 4)]);
    (4%positive, list_to_map [("numberPrefix", JUndefined)])].

End Scenario.

Module ScenarioTitle.

Import Title.
Local Open Scope string_scope.

(** A [default] profile naming the [theorem] environment [Theorem]. *)
Definition theorem_names_ex : gmap string string := {[ "theorem" := "Theorem" ]}.

Definition profiles_ex : profiles := {[ "default" := theorem_names_ex ]}.

Definition file_ex : tfile := {| basename := "1.2 Groups"; property := fun _ => None |}.

(** A callout with [number = "auto"] that has not been indexed yet. *)
Definition settings_auto_unindexed : resolved := {|
  s_type := "theorem"; s_number := "auto"; s_title := None; s__index := None;
  s_numberInit := None; s_numberStyle := Some "arabic"; s_numberSuffix := EmptyString;
  s_numberPrefix := EmptyString; s_titleSuffix := "."; s_profile := "default";
  s_inferNumberPrefix := true; s_inferNumberPrefixFromProperty := EmptyString;
  s_inferNumberPrefixParseSep := "."; s_inferNumberPrefixPrintSep := ".";
  s_inferNumberPrefixUseFirstN := 1 |}.

End ScenarioTitle.

(* ================================================================== *)
(** * Proofs *)
(* ================================================================== *)

(* ------------------------------------------------------------------ *)
(** ** Settings resolution *)
(* ------------------------------------------------------------------ *)

Module ResolveFacts.

Import Heap Resolve.

Lemma alloc_fresh (h : heap) : h !! alloc h = None.
Proof. unfold alloc. apply not_elem_of_dom. apply is_fresh. Qed.

Lemma object_assign_other (h : heap) r src l :
  l <> r -> object_assign h r src !! l = h !! l.
Proof. intros Hne. unfold object_assign. by rewrite lookup_insert_ne by congruence. Qed.

Lemma object_assign_at (h : heap) r src acc :
  h !! r = Some acc -> object_assign h r src !! r = Some (own_props h src ∪ acc).
Proof. intros Hr. unfold object_assign. by rewrite Hr, lookup_insert_eq. Qed.

Lemma frame_object_assign (h hi : heap) r src :
  frame h r hi -> frame h r (object_assign hi r src).
Proof. intros Hf l Hl. rewrite object_assign_other by done. by apply Hf. Qed.

Lemma union_self (o : obj) : o ∪ o = o.
Proof. apply map_eq. intros i. rewrite lookup_union. by destruct (o !! i). Qed.

Lemma union_empty_l (o : obj) : ∅ ∪ o = o.
Proof. apply map_eq. intros i. rewrite lookup_union, lookup_empty. by destruct (o !! i). Qed.

(** Reading a source from the intermediate heap merges the same
    properties as reading it from the initial heap: the only location
    that differs is the fresh target, and copying the target onto itself
    changes nothing. *)
Lemma own_props_frame (h hi : heap) r acc src :
  h !! r = None -> hi !! r = Some acc -> frame h r hi ->
  own_props hi src ∪ acc = own_props h src ∪ acc.
Proof.
  intros Hh Hi Hf. destruct src as [| | | | |l]; simpl; try done.
  destruct (decide (l = r)) as [->|Hne].
  - rewrite Hh, Hi. simpl. by rewrite union_self, union_empty_l.
  - by rewrite Hf.
Qed.

Lemma fold_ancestors_frame G (h hi : heap) r ancestors :
  frame h r hi ->
  frame h r (fold_left (fun h a => object_assign h r (store_entry G h (af_path a))) ancestors hi).
Proof.
  revert hi. induction ancestors as [|a rest IH]; intros hi Hf; simpl; [done|].
  apply IH. by apply frame_object_assign.
Qed.

Lemma fold_ancestors_at G (h hi : heap) r ancestors acc :
  h !! r = None -> plugin_settings_loc G <> r -> hi !! r = Some acc -> frame h r hi ->
  fold_left (fun h a => object_assign h r (store_entry G h (af_path a))) ancestors hi !! r
  = Some (fold_left (fun acc a => own_props h (store_entry G h (af_path a)) ∪ acc) ancestors acc).
Proof.
  revert hi acc. induction ancestors as [|a rest IH]; intros hi acc Hh Hps Hi Hf; simpl; [done|].
  assert (Hse : store_entry G hi (af_path a) = store_entry G h (af_path a)).
  { unfold store_entry. by rewrite Hf. }
  apply IH; [done|done| |by apply frame_object_assign].
  rewrite (object_assign_at _ _ _ acc) by done.
  by rewrite (own_props_frame h hi r acc), Hse.
Qed.

Lemma resolveSettings_frame G (h : heap) settings file :
  frame h (snd (resolveSettings G h settings file)) (fst (resolveSettings G h settings file)).
Proof.
  unfold resolveSettings. cbv zeta. cbn [fst snd].
  apply frame_object_assign, fold_ancestors_frame, frame_object_assign.
  intros l Hl. by rewrite lookup_insert_ne by congruence.
Qed.

Lemma resolveSettings_result G (h : heap) settings file :
  is_Some (h !! plugin_settings_loc G) ->
  fst (resolveSettings G h settings file) !! snd (resolveSettings G h settings file)
  = Some (merged G h settings file).
Proof.
  intros Hps. set (r := alloc h).
  assert (Hr : h !! r = None) by apply alloc_fresh.
  assert (Hpr : plugin_settings_loc G <> r).
  { intros Heq. rewrite Heq in Hps. rewrite Hr in Hps. by destruct Hps. }
  assert (F0 : frame h r (<[r := ∅]> h)).
  { intros l Hl. by rewrite lookup_insert_ne by congruence. }
  assert (A0 : <[r := ∅]> h !! r = Some ∅) by by rewrite lookup_insert_eq.
  set (h1 := object_assign (<[r := ∅]> h) r (JRef (DEFAULT_SETTINGS_loc G))).
  assert (A1 : h1 !! r = Some (own_props h (JRef (DEFAULT_SETTINGS_loc G)) ∪ ∅)).
  { unfold h1. rewrite (object_assign_at _ _ _ ∅) by done.
    by rewrite (own_props_frame h (<[r := ∅]> h) r ∅). }
  assert (F1 : frame h r h1) by (by apply frame_object_assign).
  unfold resolveSettings. cbv zeta. cbn [fst snd]. fold r. fold h1.
  set (h2 := fold_left _ (getAncestors file) h1).
  assert (A2 : h2 !! r = Some (fold_left (fun acc a => own_props h (store_entry G h (af_path a)) ∪ acc)
                                 (getAncestors file) (own_props h (JRef (DEFAULT_SETTINGS_loc G)) ∪ ∅))).
  { by apply fold_ancestors_at. }
  assert (F2 : frame h r h2) by (by apply fold_ancestors_frame).
  rewrite (object_assign_at _ _ _ _ A2). unfold merged. f_equal.
  by apply (own_props_frame h h2 r).
Qed.

(** Lookups in a left-to-right merge. *)
Lemma first_set_app k (l1 l2 : list obj) :
  first_set k (l1 ++ l2) = or_else (first_set k l1) (first_set k l2).
Proof. induction l1 as [|o l1 IH]; simpl; [done|]. by destruct (o !! k). Qed.

Lemma fold_union_lookup {A} (f : A -> obj) (l : list A) (acc0 : obj) k :
  fold_left (fun acc a => f a ∪ acc) l acc0 !! k
  = or_else (first_set k (rev (map f l))) (acc0 !! k).
Proof.
  revert acc0. induction l as [|a l IH]; intros acc0; simpl; [done|].
  rewrite IH, first_set_app. simpl. rewrite lookup_union.
  destruct (first_set k (rev (map f l))); simpl; [done|].
  by destruct (f a !! k), (acc0 !! k).
Qed.

Lemma first_set_Some k (ls : list obj) v :
  first_set k ls = Some v -> exists o, In o ls /\ o !! k = Some v.
Proof.
  induction ls as [|o ls IH]; simpl; [done|].
  destruct (o !! k) eqn:E.
  - intros [= <-]. eauto.
  - intros H. destruct (IH H) as (o' & ? & ?). eauto.
Qed.

Lemma merged_lookup G (h : heap) settings file k :
  merged G h settings file !! k
  = or_else (own_props h settings !! k)
      (or_else (first_set k (rev (map (fun a => own_props h (store_entry G h (af_path a)))
                                      (getAncestors file))))
               (own_props h (JRef (DEFAULT_SETTINGS_loc G)) !! k)).
Proof.
  unfold merged. rewrite lookup_union, fold_union_lookup, lookup_union, lookup_empty.
  destruct (own_props h settings !! k), (first_set _ _), (own_props h _ !! k); done.
Qed.

(** Without the root-folder shortcut, the loop of [getAncestors] walks
    the whole parent chain. *)
Lemma ancestors_loop_chain (a : afile) : ancestors_loop false a = parent_chain a.
Proof.
  revert a. fix IH 1. intros [p r [q|]]; simpl.
  - by rewrite IH.
  - done.
Qed.

Lemma getAncestors_chain (file : afile) :
  (af_is_root file = true -> af_parent file = None) ->
  getAncestors file = rev (parent_chain file).
Proof.
  intros Hroot. unfold getAncestors. destruct (af_is_root file) eqn:E.
  - destruct file as [p r par]. simpl in *. rewrite (Hroot eq_refl). done.
  - by rewrite ancestors_loop_chain.
Qed.

End ResolveFacts.

Module ResolveClaims.

Import Heap Resolve ResolveFacts Scenario.
Local Open Scope positive_scope.
Local Open Scope string_scope.

(** Claim C6: [resolveSettings] is override-monotonic. The returned object
    maps each key to the local settings' value when the local settings
    have it, otherwise to the value of the closest node of the file's
    parent chain (the file itself, then its folder, up to the root) whose
    store entry has it, otherwise to the value in [DEFAULT_SETTINGS]. *)
Theorem resolveSettings_override_monotonic (G : globals) (h : heap) (settings : jsval)
  (file : afile) (k : string)
  (Hstore : is_Some (h !! plugin_settings_loc G))
  (Hroot : af_is_root file = true -> af_parent file = None) :
  fst (resolveSettings G h settings file) !! snd (resolveSettings G h settings file)
    = Some (merged G h settings file) /\
  merged G h settings file !! k =
    or_else (own_props h settings !! k)
      (or_else (first_set k (map (fun a => own_props h (store_entry G h (af_path a)))
                                 (parent_chain file)))
               (own_props h (JRef (DEFAULT_SETTINGS_loc G)) !! k)).
Proof.
  split; [by apply resolveSettings_result|].
  rewrite merged_lookup, (getAncestors_chain file Hroot), map_rev, rev_involutive.
  done.
Qed.

Lemma resolveSettings_override_monotonic_witness :
  is_Some (heap_layers !! plugin_settings_loc globals_ex) /\
  (af_is_root note_a = true -> af_parent note_a = None) /\
  merged globals_ex heap_layers (JRef 6) note_a !! "numberPrefix" = Some (JString "N.") /\
  merged globals_ex heap_layers (JRef 6) note_a !! "numberSuffix" = Some (JString EmptyString) /\
  (fst (resolveSettings globals_ex heap_layers (JRef 6) note_a)
     !! snd (resolveSettings globals_ex heap_layers (JRef 6) note_a)
   = Some (merged globals_ex heap_layers (JRef 6) note_a) /\
   merged globals_ex heap_layers (JRef 6) note_a !! "numberPrefix" =
     or_else (own_props heap_layers (JRef 6) !! "numberPrefix")
       (or_else (first_set "numberPrefix"
                   (map (fun a => own_props heap_layers (store_entry globals_ex heap_layers (af_path a)))
                        (parent_chain note_a)))
                (own_props heap_layers (JRef (DEFAULT_SETTINGS_loc globals_ex)) !! "numberPrefix"))).
Proof.
  split; [vm_compute; eexists; reflexivity|].
  split; [intros H; discriminate H|].
  split; [vm_compute; reflexivity|].
  split; [vm_compute; reflexivity|].
  apply (resolveSettings_override_monotonic globals_ex heap_layers (JRef 6) note_a "numberPrefix").
  - vm_compute. eexists; reflexivity.
  - intros H; discriminate H.
Defined.

(** Claim C8: [resolveSettings] writes to no object that existed before
    the call (the store, its entries, [DEFAULT_SETTINGS], the local
    settings) and returns a newly allocated object, distinct from all of
    them. *)
Theorem resolveSettings_fresh_no_mutation (G : globals) (h : heap) (settings : jsval) (file : afile) :
  h !! snd (resolveSettings G h settings file) = None /\
  is_Some (fst (resolveSettings G h settings file) !! snd (resolveSettings G h settings file)) /\
  (forall l, is_Some (h !! l) ->
     l <> snd (resolveSettings G h settings file) /\
   fst (resolveSettings G h settings file) !! l = h !! l).
Proof.
  assert (Hr : h !! snd (resolveSettings G h settings file) = None) by apply alloc_fresh.
  split; [done|]. split.
  - unfold resolveSettings. cbv zeta. cbn [fst snd]. unfold object_assign at 1.
    rewrite lookup_insert_eq. by eexists.
  - intros l Hl.
    assert (Hne : l <> snd (resolveSettings G h settings file)).
    { intros ->. rewrite Hr in Hl. by destruct Hl. }
    split; [done|]. by apply resolveSettings_frame.
Qed.

(** The defaults give every field a value other than [undefined]. *)
Lemma DEFAULT_SETTINGS_defined lang rename f :
  In f MathContextSettings_fields ->
  exists v, DEFAULT_SETTINGS_obj lang rename !! f = Some v /\ v <> JUndefined.
Proof.
  intros Hf. simpl in Hf.
  repeat (destruct Hf as [<-|Hf]; [eexists; split; [reflexivity|discriminate]|]).
  done.
Qed.

(** Claim C7 (as amended): every field of [MathContextSettings] is present
    in the returned object, and it holds [undefined] only when the local
    settings or the store entry of one of the file's ancestors holds an
    explicit [undefined] for it. *)
Theorem resolveSettings_fields_present (G : globals) (h : heap) (settings : jsval)
  (file : afile) (lang : string) (rename : loc)
  (Hdefaults : h !! DEFAULT_SETTINGS_loc G = Some (DEFAULT_SETTINGS_obj lang rename))
  (Hstore : is_Some (h !! plugin_settings_loc G)) :
  fst (resolveSettings G h settings file) !! snd (resolveSettings G h settings file)
    = Some (merged G h settings file) /\
  forall f, In f MathContextSettings_fields ->
    exists v, merged G h settings file !! f = Some v /\
   (v = JUndefined ->
         own_props h settings !! f = Some JUndefined \/
         exists a, In a (getAncestors file) /\
   own_props h (store_entry G h (af_path a)) !! f = Some JUndefined).
Proof.
  split; [by apply resolveSettings_result|].
  intros f Hf. rewrite merged_lookup.
  destruct (own_props h settings !! f) as [v|] eqn:EL; simpl.
  { exists v. split; [done|]. intros ->. by left. }
  destruct (first_set f _) as [v|] eqn:EA; simpl.
  { exists v. split; [done|]. intros ->. right.
    destruct (first_set_Some _ _ _ EA) as (o & Hin & Ho).
    apply in_rev, in_map_iff in Hin. destruct Hin as (a & <- & Ha).
    by exists a. }
  simpl. rewrite Hdefaults. simpl.
  destruct (DEFAULT_SETTINGS_defined lang rename f Hf) as (v & Hv & Hne).
  exists v. split; [done|]. by intros ->.
Qed.

Lemma resolveSettings_fields_present_witness :
  heap_layers !! DEFAULT_SETTINGS_loc globals_ex = Some (DEFAULT_SETTINGS_obj "en-US" 2) /\
  is_Some (heap_layers !! plugin_settings_loc globals_ex) /\
  (fst (resolveSettings globals_ex heap_layers (JRef 6) note_a)
     !! snd (resolveSettings globals_ex heap_layers (JRef 6) note_a)
   = Some (merged globals_ex heap_layers (JRef 6) note_a) /\
   forall f, In f MathContextSettings_fields ->
    exists v, merged globals_ex heap_layers (JRef 6) note_a !! f = Some v /\
   (v = JUndefined ->
         own_props heap_layers (JRef 6) !! f = Some JUndefined \/
         exists a, In a (getAncestors note_a) /\
   own_props heap_layers (store_entry globals_ex heap_layers (af_path a)) !! f
                   = Some JUndefined)).
Proof.
  split; [vm_compute; reflexivity|].
  split; [vm_compute; eexists; reflexivity|].
  apply (resolveSettings_fields_present globals_ex heap_layers (JRef 6) note_a "en-US" 2).
  - vm_compute. reflexivity.
  - vm_compute. eexists; reflexivity.
Defined.

(** Claim C7 (code bug): a store entry holding an explicit [undefined]
    for [numberPrefix] is copied by [Object.assign], so the returned object,
    typed [Required<MathContextSettings>], has that field [undefined]: not
    every field of the result is defined. *)
Lemma resolveSettings_explicit_undefined :
  ~ (forall f, In f MathContextSettings_fields ->
       exists o v,
         fst (resolveSettings globals_ex heap_undefined_entry JUndefined note_a)
           !! snd (resolveSettings globals_ex heap_undefined_entry JUndefined note_a) = Some o /\
   o !! f = Some v /\ v <> JUndefined).
Proof.
  intros H. destruct (H "numberPrefix") as (o & v & Ho & Hv & Hne); [simpl; tauto|].
  vm_compute in Ho. injection Ho as <-. vm_compute in Hv. injection Hv as <-. done.
Qed.

End ResolveClaims.

Module NumeralClaims.

Import Numeral RomanParse.
Local Open Scope string_scope.

(** Claim C1 (code bug): the alphabetic formatters are positional base 26
    with [A] as the zero digit, not bijective base 26. They agree with the
    spec on [1 -> a] and [26 -> z], but [toAlphLower 27] is [ba] where
    the spec says [aa], and [toAlphUpper 28] is [BB] where it says [AB]. *)
Theorem toAlph_positional_base26 :
  toAlphLower 1 = "a" /\ toAlphLower 26 = "z" /\
  toAlphLower 27 = "ba" /\ toAlphUpper 28 = "BB".
Proof. vm_compute. repeat split. Qed.

(** The exhaustive check over [1..3999]. *)
Lemma roman_roundtrip_all : forallb roman_roundtrip_ok supported_range = true.
Proof. vm_compute. reflexivity. Qed.

(** Claim C5: for every [n] in [1..3999], [toRomanUpper n] succeeds with a
    classic subtractive Roman numeral whose reverse parse is [n]. *)
Theorem toRomanUpper_roundtrip (n : Z) (Hn : 1 <= n <= 3999) :
  exists s, toRomanUpper n = Ok s /\ is_classic_roman s = true /\ roman_value s = Some n.
Proof.
  assert (Hin : In n supported_range).
  { unfold supported_range. apply in_map_iff. exists (Z.to_nat n).
    split; [lia|]. apply in_seq. lia. }
  pose proof (proj1 (forallb_forall _ _) roman_roundtrip_all n Hin) as Hok.
  unfold roman_roundtrip_ok in Hok.
  destruct (toRomanUpper n) as [s|e]; [|discriminate].
  exists s. split; [done|].
  apply andb_prop in Hok as [Hc Hv]. split; [done|].
  destruct (roman_value s) as [v|]; [|discriminate].
  apply Z.eqb_eq in Hv. by subst.
Qed.

Lemma toRomanUpper_roundtrip_witness :
  (1 <= 1994 <= 3999) /\
  exists s, toRomanUpper 1994 = Ok s /\ is_classic_roman s = true /\ roman_value s = Some 1994.
Proof. split; [lia|]. apply (toRomanUpper_roundtrip 1994). lia. Defined.

End NumeralClaims.

Module PrefixClaims.

Import Prefix.
Local Open Scope string_scope.

(** Claim C2 as stated fails on its first example: the labels [1], [2],
    [A] are rejoined with the print separator, so the result is [1.2.A.],
    not [1-2.A.]. *)
Lemma inferNumberPrefix_rejoins_with_printSep :
  inferNumberPrefix "1-2.A foo" "-." "." 3 = Ok (Some "1.2.A.") /\
  inferNumberPrefix "1-2.A foo" "-." "." 3 <> Ok (Some "1-2.A.").
Proof. vm_compute. split; [reflexivity|discriminate]. Qed.

(** Claim C2 (as amended): [inferNumberPrefix "1-2.A foo" "-." "." 3] is
    [1.2.A.], [inferNumberPrefix "A note about calculus" " ." "." 1] is
    absent, and [inferNumberPrefix "A. note" "." "." 1] is [A.]. *)
Theorem inferNumberPrefix_examples :
  inferNumberPrefix "1-2.A foo" "-." "." 3 = Ok (Some "1.2.A.") /\
  inferNumberPrefix "A note about calculus" " ." "." 1 = Ok None /\
  inferNumberPrefix "A. note" "." "." 1 = Ok (Some "A.").
Proof. vm_compute. repeat split. Qed.

(** Claim C10: for a label list with at most one non-blank (non-empty)
    element, [areValidLabels] holds exactly when there is one non-blank
    element, the list has length 2 and its first element is a valid
    label. So a list with one non-blank element and length other than 2,
    the empty list and an all-blank list are rejected. *)
Theorem areValidLabels_single (labels : list string)
  (H : (length (filter truthy labels) <= 1)%nat) :
  areValidLabels labels = true <->
  length (filter truthy labels) = 1%nat /\ length labels = 2%nat /\
  isValidLabel (nth 0 labels "") = true.
Proof.
  unfold areValidLabels.
  destruct (Nat.leb_spec 2 (length (filter truthy labels))) as [H2|H2]; [lia|].
  destruct (Nat.eqb_spec (length (filter truthy labels)) 1) as [H1|H1].
  - rewrite andb_true_iff, Nat.eqb_eq. tauto.
  - split; [discriminate|]. intros (? & _); contradiction.
Qed.

Lemma areValidLabels_single_witness :
  (length (filter truthy ["A"; EmptyString]) <= 1)%nat /\
  (areValidLabels ["A"; EmptyString] = true <->
   length (filter truthy ["A"; EmptyString]) = 1%nat /\ length ["A"; EmptyString] = 2%nat /\
   isValidLabel (nth 0 ["A"; EmptyString] "") = true).
Proof. split; [simpl; lia|]. apply areValidLabels_single. simpl. lia. Defined.

End PrefixClaims.

Module TitleClaims.

Import Title.
Local Open Scope string_scope.

(** With [number = "auto"] and [_index] absent, the only error left is
    the profile lookup. *)
Lemma formatTitleWithoutSubtitle_auto_unindexed P file s :
  s_number s = "auto" -> s__index s = None ->
  formatTitleWithoutSubtitle P file s = fmap (fun t => (t, s)) (formatTheoremCalloutType P s).
Proof.
  intros Hn Hi. unfold formatTitleWithoutSubtitle.
  destruct (formatTheoremCalloutType P s) as [t|e]; simpl; [|done].
  rewrite Hn, Hi. reflexivity.
Qed.

(** Claim C9: when [number] is ["auto"] and [_index] is absent,
    [formatTitleWithoutSubtitle] returns the environment name of the
    profile, with no numeral appended, and leaves the settings unchanged;
    [formatTitle] then raises no error, and without a title or a title
    suffix it returns that same environment name. *)
Theorem formatTitle_auto_unindexed (P : profiles) (file : tfile) (s : resolved)
  (noTitleSuffix : bool) (theorem : gmap string string)
  (Hauto : s_number s = "auto") (Hidx : s__index s = None)
  (Hprof : P !! s_profile s = Some theorem) :
  formatTitleWithoutSubtitle P file s = Ok (theorem !! s_type s, s) /\
  exists t, formatTitle P file s noTitleSuffix = Ok t /\
    (s_title s = None -> s_titleSuffix s = "" -> t = theorem !! s_type s).
Proof.
  assert (Hw : formatTitleWithoutSubtitle P file s = Ok (theorem !! s_type s, s)).
  { rewrite formatTitleWithoutSubtitle_auto_unindexed by done.
    unfold formatTheoremCalloutType. by rewrite Hprof. }
  split; [done|].
  unfold formatTitle. rewrite Hw. simpl. eexists. split; [reflexivity|].
  intros Ht Hs. rewrite Ht, Hs. by destruct noTitleSuffix.
Qed.

End TitleClaims.

Module TitleWitness.

Import Title ScenarioTitle.
Local Open Scope string_scope.

Lemma formatTitle_auto_unindexed_witness :
  s_number settings_auto_unindexed = "auto" /\ s__index settings_auto_unindexed = None /\
  profiles_ex !! s_profile settings_auto_unindexed = Some theorem_names_ex /\
  formatTitle profiles_ex file_ex settings_auto_unindexed false = Ok (Some "Theorem.") /\
  (formatTitleWithoutSubtitle profiles_ex file_ex settings_auto_unindexed
     = Ok (theorem_names_ex !! s_type settings_auto_unindexed, settings_auto_unindexed) /\
  exists t, formatTitle profiles_ex file_ex settings_auto_unindexed false = Ok t /\
  (s_title settings_auto_unindexed = None -> s_titleSuffix settings_auto_unindexed = EmptyString ->
      t = theorem_names_ex !! s_type settings_auto_unindexed)).
Proof.
  split; [reflexivity|]. split; [reflexivity|].
  split; [vm_compute; reflexivity|]. split; [vm_compute; reflexivity|].
  apply (TitleClaims.formatTitle_auto_unindexed profiles_ex file_ex settings_auto_unindexed false
           theorem_names_ex); [reflexivity|reflexivity|vm_compute; reflexivity].
Defined.

End TitleWitness.

Module CalloutClaims.

Import Callout.
Local Open Scope string_scope.

(** Claim C4: a theorem-callout header whose settings blob does not parse
    as JSON makes [readTheoremCalloutSettingsAndTitle] throw a
    [SyntaxError]; the scan of the note skips that section (it adds no
    item and shifts no counter) and goes on with the remaining sections,
    whatever precedes and follows it. *)
Theorem scan_skips_malformed_callout (parse : string -> option json) (bad : section)
  (blob rest : string)
  (Htype : sec_type bad = "callout")
  (Hmatch : matchTheoremCallout (sec_header bad) = Some (blob, rest))
  (Hjson : parse blob = None) :
  readTheoremCalloutSettingsAndTitle parse (sec_header bad) = Throw SyntaxError /\
  forall counts eqs pre post,
    scan parse counts eqs (pre ++ bad :: post) = scan parse counts eqs (pre ++ post).
Proof.
  assert (Hread : readTheoremCalloutSettingsAndTitle parse (sec_header bad) = Throw SyntaxError).
  { unfold readTheoremCalloutSettingsAndTitle. by rewrite Hmatch, Hjson. }
  split; [done|].
  intros counts eqs pre post. revert counts eqs.
  induction pre as [|s pre IH]; intros counts eqs; simpl.
  - by rewrite Htype, Hread.
  - destruct (String.eqb (sec_type s) "callout").
    + destruct (readTheoremCalloutSettingsAndTitle parse (sec_header s)) as [[[settings title]|]|e];
        by rewrite IH.
    + destruct (String.eqb (sec_type s) "math"); by rewrite IH.
Qed.

Lemma scan_skips_malformed_callout_witness :
  sec_type {| sec_type := "callout"; sec_line := 7; sec_header := "> [!math|{oops] Claim" |}
    = "callout" /\
  matchTheoremCallout (sec_header {| sec_type := "callout"; sec_line := 7;
                                     sec_header := "> [!math|{oops] Claim" |})
    = Some ("{oops", " Claim") /\
  JSON_parse "{oops" = None /\
  (readTheoremCalloutSettingsAndTitle JSON_parse
     (sec_header {| sec_type := "callout"; sec_line := 7; sec_header := "> [!math|{oops] Claim" |})
   = Throw SyntaxError /\
   forall counts eqs pre post,
     scan JSON_parse counts eqs
       (pre ++ {| sec_type := "callout"; sec_line := 7; sec_header := "> [!math|{oops] Claim" |} :: post)
     = scan JSON_parse counts eqs (pre ++ post)).
Proof.
  split; [reflexivity|]. split; [vm_compute; reflexivity|]. split; [vm_compute; reflexivity|].
  apply (scan_skips_malformed_callout JSON_parse
           {| sec_type := "callout"; sec_line := 7; sec_header := "> [!math|{oops] Claim" |}
           "{oops" " Claim"); [reflexivity|vm_compute; reflexivity|vm_compute; reflexivity].
Defined.

End CalloutClaims.

Module NumeralFacts.

Import Numeral.

(** [digits_fuel] gives the same digits for any fuel above the integer. *)
Lemma digits_fuel_indep (f1 f2 : nat) (m : Z) :
  0 <= m -> (Z.to_nat m < f1)%nat -> (Z.to_nat m < f2)%nat ->
  digits_fuel f1 10 m = digits_fuel f2 10 m.
Proof.
  revert f2 m. induction f1 as [|f1 IH]; intros f2 m Hm H1 H2; [lia|].
  destruct f2 as [|f2]; [lia|]. simpl.
  destruct (m <? 10) eqn:E; [done|]. apply Z.ltb_ge in E.
  f_equal. apply IH.
  - apply Z.div_pos; lia.
  - assert (m / 10 < m) by (apply Z.div_lt; lia). lia.
  - assert (m / 10 < m) by (apply Z.div_lt; lia). lia.
Qed.

Lemma digits_small (m : Z) : 0 <= m < 10 -> digits_in_base 10 m = [m].
Proof.
  intros Hm. unfold digits_in_base. simpl.
  by replace (m <? 10) with true by (symmetry; apply Z.ltb_lt; lia).
Qed.

Lemma digits_step (m : Z) :
  10 <= m -> digits_in_base 10 m = digits_in_base 10 (m / 10) ++ [m mod 10].
Proof.
  intros Hm. unfold digits_in_base at 1. simpl.
  replace (m <? 10) with false by (symmetry; apply Z.ltb_ge; lia).
  f_equal. unfold digits_in_base. apply digits_fuel_indep.
  - apply Z.div_pos; lia.
  - assert (m / 10 < m) by (apply Z.div_lt; lia). lia.
  - lia.
Qed.

(** The last three digits of an integer from 1000 on. *)
Lemma digits_thousands (m : Z) :
  1000 <= m ->
  digits_in_base 10 m =
    digits_in_base 10 (m / 1000) ++ [(m / 100) mod 10; (m / 10) mod 10; m mod 10].
Proof.
  intros Hm.
  assert (E1 : m / 10 / 10 = m / 100) by (rewrite Z.div_div by lia; reflexivity).
  assert (E2 : m / 100 / 10 = m / 1000) by (rewrite Z.div_div by lia; reflexivity).
  rewrite (digits_step m) by lia.
  rewrite (digits_step (m / 10)) by (apply Z.div_le_lower_bound; lia).
  rewrite E1.
  rewrite (digits_step (m / 100)) by (apply Z.div_le_lower_bound; lia).
  rewrite E2.
  by rewrite <- !app_assoc.
Qed.

Lemma digits_range (m : Z) :
  0 <= m -> Forall (fun d => 0 <= d < 10) (digits_in_base 10 m).
Proof.
  induction m as [m IH] using (well_founded_induction (Z.lt_wf 0)).
  intros Hm. destruct (Z.lt_ge_cases m 10) as [Hs|Hb].
  - rewrite digits_small by lia. constructor; [lia|constructor].
  - rewrite digits_step by done. apply Forall_app. split.
    + apply IH; [split; [apply Z.div_pos; lia|apply Z.div_lt; lia]|apply Z.div_pos; lia].
    + constructor; [apply Z.mod_pos_bound; lia|constructor].
Qed.

Lemma digits_nonempty (m : Z) : 0 <= m -> digits_in_base 10 m <> [].
Proof.
  intros Hm. destruct (Z.lt_ge_cases m 10).
  - by rewrite digits_small by lia.
  - rewrite digits_step by done. intros He. apply app_eq_nil in He as [_ He]. discriminate He.
Qed.

(** Reading the digits back, most significant first, gives the integer. *)
Lemma digits_value (m : Z) :
  0 <= m -> fold_left (fun a d => a * 10 + d) (digits_in_base 10 m) 0 = m.
Proof.
  induction m as [m IH] using (well_founded_induction (Z.lt_wf 0)).
  intros Hm. destruct (Z.lt_ge_cases m 10) as [Hs|Hb].
  - rewrite digits_small by lia. simpl. lia.
  - rewrite digits_step, fold_left_app by done. simpl.
    rewrite IH; [|split; [apply Z.div_pos; lia|apply Z.div_lt; lia]|apply Z.div_pos; lia].
    pose proof (Z.div_mod m 10). lia.
Qed.

Lemma char_digit_char (d : Z) : 0 <= d < 10 -> char_digit 10 (digit_char d) = Some d.
Proof.
  intros Hd.
  assert (d = 0 \/ d = 1 \/ d = 2 \/ d = 3 \/ d = 4 \/ d = 5 \/ d = 6 \/ d = 7 \/ d = 8 \/ d = 9)
    as Hc by lia.
  repeat destruct Hc as [->|Hc]; try reflexivity. subst. reflexivity.
Qed.

Lemma digit_prefix_digits (ds : list Z) acc len :
  Forall (fun d => 0 <= d < 10) ds ->
  digit_prefix 10 (string_of_chars (map digit_char ds)) acc len
  = (fold_left (fun a d => a * 10 + d) ds acc, (len + length ds)%nat).
Proof.
  revert acc len. induction ds as [|d ds IH]; intros acc len Hf; simpl.
  - by rewrite Nat.add_0_r.
  - inversion Hf as [|? ? Hd Hds]; subst.
    rewrite char_digit_char by done. rewrite IH by done. f_equal. lia.
Qed.

Lemma string_of_chars_length l : String.length (string_of_chars l) = length l.
Proof. induction l; simpl; congruence. Qed.

Lemma split_chars_of_chars l :
  split_chars (string_of_chars l) = map (fun c => String c EmptyString) l.
Proof. induction l; simpl; congruence. Qed.

Lemma append_empty_r (s : string) : append s EmptyString = s.
Proof.
  induction s as [|c s IH]; [reflexivity|].
  change (String c (append s EmptyString) = String c s). by rewrite IH.
Qed.

Lemma join_empty_cons x r :
  join EmptyString (x :: r) = append (default EmptyString x) (join EmptyString r).
Proof. destruct r as [|y r]; simpl; [by rewrite append_empty_r|by rewrite append_empty_r]. Qed.

Lemma las_append (a b : string) :
  list_ascii_of_string (append a b) = list_ascii_of_string a ++ list_ascii_of_string b.
Proof.
  induction a as [|c a IH]; [reflexivity|].
  change (c :: list_ascii_of_string (append a b) = c :: list_ascii_of_string a ++ list_ascii_of_string b).
  by rewrite IH.
Qed.

Lemma las_rev_string (s : string) : list_ascii_of_string (rev_string s) = rev (list_ascii_of_string s).
Proof. induction s as [|c s IH]; [reflexivity|]. simpl. by rewrite las_append, IH. Qed.

Lemma rev_string_involutive (s : string) : rev_string (rev_string s) = s.
Proof.
  rewrite <- (string_of_list_ascii_of_string (rev_string (rev_string s))).
  rewrite <- (string_of_list_ascii_of_string s) at 2.
  by rewrite !las_rev_string, rev_involutive.
Qed.

Lemma trim_start_nospace (s : string) :
  Forall (fun c => is_js_space c = false) (list_ascii_of_string s) -> trim_start s = s.
Proof. destruct s as [|c r]; intros H; [done|]. inversion H; subst. simpl. by rewrite H2. Qed.

(** [s.trim()] leaves a string without whitespace unchanged. *)
Lemma js_trim_nospace (s : string) :
  Forall (fun c => is_js_space c = false) (list_ascii_of_string s) -> js_trim s = s.
Proof.
  intros H. unfold js_trim. rewrite (trim_start_nospace s H).
  rewrite trim_start_nospace; [apply rev_string_involutive|].
  rewrite las_rev_string. by apply Forall_rev.
Qed.

Lemma las_string_of_chars l : list_ascii_of_string (string_of_chars l) = l.
Proof. induction l; simpl; congruence. Qed.

Lemma digit_char_nospace (d : Z) : 0 <= d < 10 -> is_js_space (digit_char d) = false.
Proof.
  intros Hd.
  assert (d = 0 \/ d = 1 \/ d = 2 \/ d = 3 \/ d = 4 \/ d = 5 \/ d = 6 \/ d = 7 \/ d = 8 \/ d = 9)
    as Hc by lia.
  repeat destruct Hc as [->|Hc]; try reflexivity. subst. reflexivity.
Qed.

(** Unary [+] on ["-"] followed by decimal digits. *)
Lemma to_number_str_neg_digits (ds : list Z) :
  ds <> [] -> Forall (fun d => 0 <= d < 10) ds ->
  to_number_str (String "-" (string_of_chars (map digit_char ds)))
  = JN (- fold_left (fun a d => a * 10 + d) ds 0).
Proof.
  intros Hne Hf. unfold to_number_str.
  rewrite js_trim_nospace.
  2:{ simpl. constructor; [reflexivity|]. rewrite las_string_of_chars.
      apply Forall_map. eapply Forall_impl; [exact Hf|]. intros d Hd. by apply digit_char_nospace. }
  simpl. rewrite digit_prefix_digits by done. simpl.
  rewrite string_of_chars_length, length_map.
  destruct ds as [|d ds]; [done|]. simpl. rewrite Nat.eqb_refl. reflexivity.
Qed.

Lemma pop_snoc {A} (l : list A) (x : A) : pop (l ++ [x]) = (Some x, l).
Proof. unfold pop. rewrite rev_app_distr. simpl. by rewrite rev_involutive. Qed.

(** Each turn of the [while] loop pops one digit string off the end. *)
Lemma roman_loop_leftover (X Y : list string) (r : string) :
  exists r', roman_loop (length Y) (X ++ Y) r = (X, r').
Proof.
  revert r. induction Y as [|y Y IH] using rev_ind; intros r.
  - rewrite app_nil_r. by exists r.
  - rewrite length_app, Nat.add_comm. simpl.
    rewrite app_assoc, pop_snoc. apply IH.
Qed.

Lemma join_singletons (l : list ascii) :
  join EmptyString (map Some (map (fun c => String c EmptyString) l)) = string_of_chars l.
Proof. induction l as [|c l IH]; [reflexivity|]. simpl map. rewrite join_empty_cons, IH. reflexivity. Qed.

Lemma js_String_neg (n : Z) :
  n < 0 -> js_String n = String "-" (string_of_chars (map digit_char (digits_in_base 10 (- n)))).
Proof.
  intros Hn. unfold js_String, toString_radix.
  replace (Z.abs n) with (- n) by lia.
  by replace (n <? 0) with true by (symmetry; apply Z.ltb_lt; lia).
Qed.

(** From [-1000] down, the thousands left after the loop are read back
    with their sign, and [Array] gets the length [1 - (-n) / 1000]. *)
Lemma toRomanUpper_thousands (n : Z) :
  n <= -1000 ->
  exists roman, toRomanUpper n =
    let! ms := array_join_holes (JN (- (- n / 1000) + 1)) "M" in Ok (append ms roman).
Proof.
  intros Hn. set (m := - n).
  assert (Hk : 1 <= m / 1000) by (apply Z.div_le_lower_bound; lia).
  set (X := String "-" EmptyString
              :: map (fun c => String c EmptyString) (map digit_char (digits_in_base 10 (m / 1000)))).
  set (Y := map (fun c => String c EmptyString)
              (map digit_char [(m / 100) mod 10; (m / 10) mod 10; m mod 10])).
  assert (Hs : split_chars (js_String n) = X ++ Y).
  { rewrite js_String_neg by lia. fold m. rewrite digits_thousands by lia.
    simpl split_chars. rewrite split_chars_of_chars, map_app, map_app. reflexivity. }
  destruct (roman_loop_leftover X Y EmptyString) as [roman Hr].
  exists roman. unfold toRomanUpper. rewrite Hs. simpl length in Hr. rewrite Hr.
  assert (Hj : join EmptyString (map Some X)
               = String "-" (string_of_chars (map digit_char (digits_in_base 10 (m / 1000))))).
  { unfold X. simpl map. rewrite join_empty_cons, join_singletons. reflexivity. }
  cbv zeta. rewrite Hj.
  rewrite to_number_str_neg_digits.
  - rewrite digits_value by lia. reflexivity.
  - apply digits_nonempty. lia.
  - apply digits_range. lia.
Qed.

End NumeralFacts.

Module NumeralNonpositive.

Import Numeral RomanParse NumeralFacts.

Lemma roman_nonpositive_small_all : forallb roman_nonpositive_ok nonpositive_small_range = true.
Proof. vm_compute. reflexivity. Qed.

Lemma roman_nonpositive_small (n : Z) : -999 <= n <= 0 -> roman_nonpositive_ok n = true.
Proof.
  intros Hn. apply (proj1 (forallb_forall _ _) roman_nonpositive_small_all).
  unfold nonpositive_small_range. apply in_map_iff. exists (Z.to_nat (- n)).
  split; [lia|]. apply in_seq. lia.
Qed.

Lemma toRomanUpper_nonpositive (n : Z) :
  n <= 0 ->
  ((exists s, toRomanUpper n = Ok s) <-> -99 <= n \/ -1999 <= n <= -1000) /\
  (forall e, toRomanUpper n = Throw e -> e = RangeError).
Proof.
  intros Hn. destruct (Z.le_gt_cases (-999) n) as [Hs|Hb].
  - pose proof (roman_nonpositive_small n (conj Hs Hn)) as Hok.
    unfold roman_nonpositive_ok in Hok.
    destruct (toRomanUpper n) as [s|[| |]].
    + apply Z.leb_le in Hok. split; [|discriminate]. split; [lia|eauto].
    + apply Z.ltb_lt in Hok. split; [|by injection 1].
      split; [intros [? ?]; discriminate|lia].
    + discriminate.
    + discriminate.
  - destruct (toRomanUpper_thousands n) as [roman Hr]; [lia|]. rewrite Hr.
    unfold array_join_holes.
    destruct (Z.ltb_spec (- (- n / 1000) + 1) 0) as [Hneg|Hpos]; simpl.
    + split; [|by injection 1].
      split; [intros [? ?]; discriminate|].
      assert (2 <= - n / 1000) by lia.
      intros [Hc|Hc]; [lia|].
      assert (- n / 1000 < 2) by (apply Z.div_lt_upper_bound; lia). lia.
    + replace (2 ^ 32 <=? - (- n / 1000) + 1) with false
        by (symmetry; apply Z.leb_gt; assert (1 <= - n / 1000) by (apply Z.div_le_lower_bound; lia); lia).
      simpl. split; [|discriminate]. split; [intros _|eauto].
      assert (- n / 1000 <= 1) by lia.
      assert (- n < 2000).
      { destruct (Z.lt_ge_cases (- n) 2000) as [?|Hge]; [done|].
        assert (2 <= - n / 1000) by (apply Z.div_le_lower_bound; lia). lia. }
      lia.
Qed.

End NumeralNonpositive.

Module NumeralSafetyClaims.

Import Numeral NumeralNonpositive.

(** Claim C3 as stated fails: [toRomanUpper (-2000)] throws a
    [RangeError] ([Array(-1)]), and so does [toRomanUpper (-456)] (the
    leftover ["-"] reads as [NaN]). *)
Lemma toRomanUpper_nonpositive_throws :
  toRomanUpper (-2000) = Throw RangeError /\ toRomanUpper (-456) = Throw RangeError /\
  CONVERTER roman (-2000) = Throw RangeError.
Proof. vm_compute. repeat split. Qed.

End NumeralSafetyClaims.

Module UtilsFacts.

Import Prefix Utils NumeralFacts.
Local Open Scope string_scope.

Lemma append_cons (c : ascii) (a b : string) : append (String c a) b = String c (append a b).
Proof. reflexivity. Qed.


Lemma split_on_nonempty sep s : exists p ps, split_on sep s = p :: ps.
Proof.
  induction s as [|c r [p [ps IH]]]; simpl; [eauto|]. rewrite IH.
  destruct (sep c); eauto.
Qed.

Lemma split_on_nosep sep s : nosep sep s -> split_on sep s = [s].
Proof.
  unfold nosep. induction s as [|c r IH]; intros H; [done|]. simpl in H |- *.
  inversion H as [|? ? Hc Hr]; subst. by rewrite IH, Hc.
Qed.

Lemma split_on_app sep x c rest :
  nosep sep x -> sep c = true ->
  split_on sep (append x (String c rest)) = x :: split_on sep rest.
Proof.
  unfold nosep. intros Hx Hc. induction x as [|a x IH].
  - simpl. destruct (split_on_nonempty sep rest) as (p & ps & ->). by rewrite Hc.
  - rewrite append_cons. simpl. simpl in Hx. inversion Hx as [|? ? Ha Hr]; subst.
    rewrite IH by done. by rewrite Ha.
Qed.

Lemma split_on_pieces sep s : Forall (nosep sep) (split_on sep s).
Proof.
  induction s as [|c r IH]; simpl.
  - repeat constructor.
  - destruct (split_on_nonempty sep r) as (p & ps & Hs). rewrite Hs in IH |- *.
    inversion IH as [|? ? Hp Hps]; subst.
    destruct (sep c) eqn:E.
    + repeat constructor; done.
    + constructor; [|done]. unfold nosep. simpl. by constructor.
Qed.

Lemma join_str_cons_char sep c p ps :
  join_str sep (String c p :: ps) = String c (join_str sep (p :: ps)).
Proof. destruct ps; reflexivity. Qed.

(** Splitting on a separator and joining with it gives the string back. *)
Lemma join_split (s : string) : join_str nl (split_on is_nl s) = s.
Proof.
  induction s as [|c r IH]; [reflexivity|]. simpl.
  destruct (split_on_nonempty is_nl r) as (p & ps & Hs). rewrite Hs in IH |- *.
  destruct (is_nl c) eqn:E.
  - apply Ascii.eqb_eq in E. subst c. change (String "010" (join_str nl (p :: ps)) = String "010" r).
    by rewrite IH.
  - rewrite join_str_cons_char. by rewrite IH.
Qed.

(** Joining pieces free of the separator and splitting again gives the
    pieces back. *)
Lemma split_join (ls : list string) :
  ls <> [] -> Forall (nosep is_nl) ls -> split_on is_nl (join_str nl ls) = ls.
Proof.
  induction ls as [|x [|y r] IH]; intros Hne Hf; [done| |].
  - inversion Hf; subst. simpl. by apply split_on_nosep.
  - inversion Hf as [|? ? Hx Hr]; subst.
    change (split_on is_nl (append x (String "010" (join_str nl (y :: r)))) = x :: y :: r).
    rewrite split_on_app by done. f_equal. by apply IH.
Qed.

Lemma nosep_append sep a b : nosep sep a -> nosep sep b -> nosep sep (append a b).
Proof. unfold nosep. rewrite las_append. apply Forall_app_2. Qed.

Lemma skip_js_space_head (l : list ascii) :
  (forall c r, l = c :: r -> is_js_space c = false) -> skip_js_space l = l.
Proof. destruct l as [|c r]; intros H; [done|]. simpl. by rewrite (H c r eq_refl). Qed.

Lemma until_eol_id (l : list ascii) :
  Forall (fun c => Callout.is_line_terminator c = false) l -> Callout.until_eol l = l.
Proof. induction l as [|c r IH]; intros H; [done|]. inversion H; subst. simpl. rewrite H2. by rewrite IH. Qed.

Lemma is_nl_terminator c : is_nl c = true -> Callout.is_line_terminator c = true.
Proof. intros H. apply Ascii.eqb_eq in H. by subst. Qed.

Lemma increaseQuoteLevel_one_line (line : string) :
  nosep is_nl line -> increaseQuoteLevel line = append "> " line.
Proof. intros H. unfold increaseQuoteLevel. by rewrite split_on_nosep. Qed.

Lemma las_quote (s : string) : list_ascii_of_string (append "> " s) = ">"%char :: " "%char :: list_ascii_of_string s.
Proof. reflexivity. Qed.

(** [k] quotings of one line that does not start with whitespace. *)
Lemma iter_quote (k : nat) (line : string) :
  nosep is_nl line ->
  (forall c r, list_ascii_of_string line = c :: r -> is_js_space c = false) ->
  Nat.iter k increaseQuoteLevel line = Nat.iter k (fun s => append "> " s) line /\
  nosep is_nl (Nat.iter k increaseQuoteLevel line) /\
  (forall c r, list_ascii_of_string (Nat.iter k increaseQuoteLevel line) = c :: r ->
               is_js_space c = false) /\
  quote_markers k (list_ascii_of_string (Nat.iter k increaseQuoteLevel line))
    = Some (list_ascii_of_string line).
Proof.
  intros Hnl Hsp. induction k as [|k (IHe & IHn & IHs & IHq)]; [by repeat split|].
  simpl Nat.iter. rewrite increaseQuoteLevel_one_line by done. rewrite <- IHe.
  repeat split.
  - apply nosep_append; [|done]. repeat constructor.
  - intros c r. rewrite las_quote. by injection 1 as <-.
  - rewrite las_quote. simpl. rewrite skip_js_space_head by done. done.
Qed.

Lemma split_lines_nonempty l : exists p ps, split_lines l = p :: ps.
Proof.
  destruct l as [|c r]; simpl; [eauto|].
  destruct (Ascii.eqb c "010"); [eauto|].
  destruct (split_lines r) as [|p ps] eqn:E; destruct r as [|c' r']; simpl; eauto;
    try (destruct (Ascii.eqb c "013" && Ascii.eqb c' "010"); simpl; eauto).
Qed.

Lemma cons_char_nonempty c l : exists p ps, cons_char c (split_lines l) = String c p :: ps.
Proof. destruct (split_lines_nonempty l) as (p & ps & ->). simpl. eauto. Qed.

Lemma nosep_empty sep : nosep sep EmptyString.
Proof. constructor. Qed.

Lemma nosep_cons sep c p : sep c = false -> nosep sep p -> nosep sep (String c p).
Proof. intros Hc Hp. by constructor. Qed.

(** The pieces of [splitIntoLines] hold no line feed, there is one more
    piece than there are line feeds, and without carriage returns joining
    the pieces with line feeds gives the text back. *)
Lemma split_lines_props (l : list ascii) :
  Forall (nosep is_nl) (split_lines l) /\
  length (split_lines l) = S (count_occ ascii_dec l "010"%char) /\
  (~ In "013"%char l -> join_str nl (split_lines l) = string_of_list_ascii l).
Proof.
  induction l as [l IH] using (induction_ltof1 _ (@length ascii)).
  destruct l as [|c r].
  { simpl. split; [repeat constructor|]. split; [done|]. intros _. reflexivity. }
  assert (IHr : Forall (nosep is_nl) (split_lines r) /\
                length (split_lines r) = S (count_occ ascii_dec r "010"%char) /\
                (~ In "013"%char r -> join_str nl (split_lines r) = string_of_list_ascii r)).
  { apply IH. unfold ltof. simpl. lia. }
  destruct IHr as (Hf & Hl & Hj).
  simpl split_lines. destruct (Ascii.eqb c "010") eqn:E1.
  - apply Ascii.eqb_eq in E1. subst c.
    split; [constructor; [apply nosep_empty|done]|]. split.
    + simpl. rewrite Hl. destruct (ascii_dec "010" "010"); [done|congruence].
    + intros Hin. destruct (split_lines_nonempty r) as (p & ps & Hs). rewrite Hs in Hj |- *.
      change (String "010" (join_str nl (p :: ps)) = String "010" (string_of_list_ascii r)).
      rewrite Hj; [done|]. intros Hr. apply Hin. by right.
  - assert (Hne : c <> "010"%char) by (intros ->; discriminate E1).
    destruct r as [|c' r'].
    + simpl. split; [constructor; [apply nosep_cons; [exact E1|apply nosep_empty]|constructor]|]. split.
      * destruct (ascii_dec c "010"); [done|reflexivity].
      * intros _. reflexivity.
    + destruct (Ascii.eqb c "013" && Ascii.eqb c' "010") eqn:E2.
      * apply andb_prop in E2 as [Ec Ec']. apply Ascii.eqb_eq in Ec, Ec'. subst c c'.
        assert (IHr' : Forall (nosep is_nl) (split_lines r') /\
                       length (split_lines r') = S (count_occ ascii_dec r' "010"%char) /\
                       (~ In "013"%char r' -> join_str nl (split_lines r') = string_of_list_ascii r')).
        { apply IH. unfold ltof. simpl. lia. }
        destruct IHr' as (Hf' & Hl' & _).
        split; [constructor; [apply nosep_empty|done]|]. split.
        -- simpl. rewrite Hl'. destruct (ascii_dec "013" "010"); [discriminate|].
           destruct (ascii_dec "010" "010"); [done|congruence].
        -- intros Hin. exfalso. apply Hin. by left.
      * destruct (split_lines_nonempty (c' :: r')) as (p & ps & Hs).
        rewrite Hs in Hf, Hl, Hj |- *. simpl cons_char.
        inversion Hf as [|? ? Hp Hps]; subst.
        split; [constructor; [apply nosep_cons; [exact E1|exact Hp]|exact Hps]|]. split.
        -- simpl length. simpl length in Hl. rewrite Hl.
           change (S (count_occ ascii_dec (c' :: r') "010"%char)
                   = S (count_occ ascii_dec (c :: c' :: r') "010"%char)).
           simpl. destruct (ascii_dec c "010"); [done|reflexivity].
        -- intros Hin. rewrite join_str_cons_char, Hj; [reflexivity|].
           intros Hr. apply Hin. by right.
Qed.

Lemma quote_exec_unfold k l :
  quote_exec k l = match quote_markers k l with
                   | Some r => Some (Callout.until_eol r)
                   | None => match l with [] => None | _ :: t => quote_exec k t end
                   end.
Proof. destruct l; reflexivity. Qed.

End UtilsFacts.

Module UtilsExtras.
Import Prefix Utils UtilsFacts.
Local Open Scope string_scope.

(** [increaseQuoteLevel] keeps the lines of its input: split at line feeds,
    the result has exactly the input's lines, each prefixed with ["> "]. *)
Theorem increaseQuoteLevel_lines (content : string) :
  split_on is_nl (increaseQuoteLevel content)
  = map (fun line => "> " ++ line) (split_on is_nl content).
Proof.
  unfold increaseQuoteLevel. apply split_join.
  - destruct (split_on_nonempty is_nl content) as (p & ps & ->). discriminate.
  - apply Forall_map. eapply Forall_impl; [apply split_on_pieces|].
    intros x Hx. apply nosep_append; [|exact Hx]. repeat constructor.
Qed.

(** Quoting a line [k] times with [increaseQuoteLevel] and then reading it
    back with [nodeTextQuoteSymbolTrimmed] at quote level [k] gives the
    line back, when the line holds no line terminator and does not start
    with whitespace. *)
Theorem nodeTextQuoteSymbolTrimmed_increaseQuoteLevel (k : nat) (line : string)
  (Hterm : forallb (fun c => negb (Callout.is_line_terminator c)) (list_ascii_of_string line) = true)
  (Hhead : match list_ascii_of_string line with c :: _ => negb (is_js_space c) | [] => true end = true) :
  nodeTextQuoteSymbolTrimmed (Nat.iter k increaseQuoteLevel line) k = Some line.
Proof.
  assert (Hf : Forall (fun c => Callout.is_line_terminator c = false) (list_ascii_of_string line)).
  { apply List.Forall_forall. intros c Hc. eapply forallb_forall in Hterm; [|exact Hc].
    by apply negb_true_iff. }
  assert (Hnl : nosep is_nl line).
  { unfold nosep. eapply Forall_impl; [exact Hf|]. intros c Hc.
    destruct (is_nl c) eqn:E; [|done]. apply is_nl_terminator in E. congruence. }
  assert (Hsp : forall c r, list_ascii_of_string line = c :: r -> is_js_space c = false).
  { intros c r Hl. rewrite Hl in Hhead. by apply negb_true_iff. }
  destruct (iter_quote k line Hnl Hsp) as (_ & _ & _ & Hq).
  unfold nodeTextQuoteSymbolTrimmed. rewrite quote_exec_unfold, Hq. simpl.
  rewrite until_eol_id by exact Hf. by rewrite string_of_list_ascii_of_string.
Qed.

Lemma nodeTextQuoteSymbolTrimmed_increaseQuoteLevel_witness :
  nodeTextQuoteSymbolTrimmed (Nat.iter 2 increaseQuoteLevel "x > y") 2 = Some "x > y".
Proof. apply nodeTextQuoteSymbolTrimmed_increaseQuoteLevel; reflexivity. Defined.

(** [splitIntoLines] returns one line more than the text has line feeds,
    and no returned line holds a line feed. *)
Theorem splitIntoLines_count (text : string) :
  length (splitIntoLines text) = S (count_occ ascii_dec (list_ascii_of_string text) "010"%char) /\
  Forall (nosep is_nl) (splitIntoLines text).
Proof.
  unfold splitIntoLines. destruct (split_lines_props (list_ascii_of_string text)) as (Hf & Hl & _).
  by split.
Qed.

(** On a text without carriage returns, joining the lines of
    [splitIntoLines] with line feeds gives the text back. *)
Theorem splitIntoLines_join (text : string)
  (Hcr : ~ In "013"%char (list_ascii_of_string text)) :
  join_str nl (splitIntoLines text) = text.
Proof.
  unfold splitIntoLines. destruct (split_lines_props (list_ascii_of_string text)) as (_ & _ & Hj).
  rewrite Hj by exact Hcr. apply string_of_list_ascii_of_string.
Qed.

Lemma splitIntoLines_join_witness :
  join_str nl (splitIntoLines ("a" ++ nl ++ nl ++ "b")) = "a" ++ nl ++ nl ++ "b".
Proof. apply splitIntoLines_join. simpl. intuition discriminate. Defined.

End UtilsExtras.

Module ArrayFacts.
Import Utils.

Lemma indexOf_from_notin {A} `{EqDecision A} (x : A) l i :
  ~ In x l -> indexOf_from x l i = -1.
Proof.
  revert i. induction l as [|y r IH]; intros i Hn; [done|]. simpl.
  destruct (decide (y = x)) as [->|_]; [exfalso; apply Hn; by left|].
  apply IH. intros H. apply Hn. by right.
Qed.

Lemma indexOf_from_first {A} `{EqDecision A} (x : A) pre post i :
  ~ In x pre -> indexOf_from x (pre ++ x :: post) i = i + Z.of_nat (length pre).
Proof.
  revert i. induction pre as [|y r IH]; intros i Hn; simpl.
  - destruct (decide (x = x)); [lia|congruence].
  - destruct (decide (y = x)) as [->|_]; [exfalso; apply Hn; by left|].
    rewrite IH; [lia|]. intros H. apply Hn. by right.
Qed.

(** Removing the first occurrence of an item. *)
Lemma removeFrom_first {A} `{EqDecision A} (item : A) pre post :
  ~ In item pre -> removeFrom item (pre ++ item :: post) = ([item], pre ++ post).
Proof.
  intros Hn. unfold removeFrom, indexOf, splice. rewrite indexOf_from_first by done.
  rewrite length_app. simpl length.
  replace (relative_index (length pre + S (length post)) (0 + Z.of_nat (length pre)))
    with (length pre) by (unfold relative_index; destruct (Z.ltb_spec (0 + Z.of_nat (length pre)) 0); lia).
  replace (Nat.min (Z.to_nat 1) (length pre + S (length post) - length pre)) with (length pre + 1 - length pre)%nat by lia.
  replace (length pre + 1 - length pre)%nat with 1%nat by lia.
  rewrite drop_app_length, take_app_length, drop_app_add. reflexivity.
Qed.

(** Inserting at a position [j] within the array. *)
Lemma insertAt_at {A} (arr : list A) item (i : Z) (j : nat) :
  relative_index (length arr) i = j ->
  insertAt arr item i = take j arr ++ item :: drop j arr.
Proof.
  intros Hj. unfold insertAt, splice. rewrite Hj. simpl.
  rewrite Nat.add_0_r. reflexivity.
Qed.

Lemma relative_index_le len k : (relative_index len k <= len)%nat.
Proof. unfold relative_index. destruct (Z.ltb_spec k 0); lia. Qed.

End ArrayFacts.

Module ArrayExtras.
Import Utils ArrayFacts.

(** When the item is absent, [removeFrom] does not leave the array alone:
    [indexOf] gives [-1] and [splice(-1, 1)] removes the last element
    (nothing for an empty array). *)
Theorem removeFrom_absent {A} `{EqDecision A} (item : A) (arr : list A) :
  ~ In item arr ->
  removeFrom item arr = (drop (length arr - 1) arr, take (length arr - 1) arr).
Proof.
  intros Hn. destruct arr as [|y r] using rev_ind; [reflexivity|].
  unfold removeFrom, indexOf, splice. rewrite indexOf_from_notin by done.
  rewrite length_app. simpl length.
  replace (relative_index (length r + 1) (-1)) with (length r)
    by (unfold relative_index; simpl; lia).
  replace (Nat.min (Z.to_nat 1) (length r + 1 - length r)) with 1%nat by lia.
  replace (length r + 1 - 1)%nat with (length r) by lia.
  rewrite drop_app_length, take_app_length, drop_app_add. simpl.
  rewrite app_nil_r. reflexivity.
Qed.

Lemma removeFrom_absent_witness :
  removeFrom 5%Z [1;2;3]%Z = ([3], [1;2])%Z.
Proof. apply (removeFrom_absent 5%Z [1;2;3]%Z). simpl. intuition discriminate. Defined.

(** [removeFrom] removes the first occurrence of the item, and returns
    it as the one removed element. *)
Theorem removeFrom_present {A} `{EqDecision A} (item : A) pre post :
  ~ In item pre -> removeFrom item (pre ++ item :: post) = ([item], pre ++ post).
Proof. apply removeFrom_first. Qed.

Lemma removeFrom_present_witness :
  removeFrom 2%Z ([1] ++ 2 :: [3; 2])%Z = ([2], [1] ++ [3; 2])%Z.
Proof. apply removeFrom_present. simpl. intuition discriminate. Defined.

(** [insertAt] at an index between [0] and the length puts the item
    there; removing the item again with [removeFrom] gives back the
    original array, when the item was not in it. *)
Theorem insertAt_removeFrom {A} `{EqDecision A} (arr : list A) (item : A) (i : Z) :
  ~ In item arr -> 0 <= i <= Z.of_nat (length arr) ->
  insertAt arr item i = take (Z.to_nat i) arr ++ item :: drop (Z.to_nat i) arr /\
  removeFrom item (insertAt arr item i) = ([item], arr).
Proof.
  intros Hn Hi. assert (Hj : relative_index (length arr) i = Z.to_nat i)
    by (unfold relative_index; destruct (Z.ltb_spec i 0); lia).
  rewrite (insertAt_at arr item i _ Hj). split; [done|].
  rewrite removeFrom_first.
  - by rewrite firstn_skipn.
  - intros H. apply Hn. rewrite <- (firstn_skipn (Z.to_nat i) arr). apply in_or_app. by left.
Qed.

Lemma insertAt_removeFrom_witness :
  insertAt [1;2;3]%Z 9%Z 1 = [1;9;2;3]%Z /\ removeFrom 9%Z (insertAt [1;2;3]%Z 9%Z 1) = ([9], [1;2;3])%Z.
Proof.
  apply (insertAt_removeFrom [1;2;3]%Z 9%Z 1).
  - simpl. intuition discriminate.
  - simpl. lia.
Defined.

(** [insertAt] with an index past the end appends the item; a negative
    index [-k] counts from the end and is clamped to the front. *)
Theorem insertAt_out_of_range {A} (arr : list A) (item : A) :
  (forall i, Z.of_nat (length arr) <= i -> insertAt arr item i = arr ++ [item]) /\
  (forall k, 0 < k ->
     insertAt arr item (- k) = take (length arr - Z.to_nat k) arr ++ item :: drop (length arr - Z.to_nat k) arr).
Proof.
  split.
  - intros i Hi. rewrite (insertAt_at arr item i (length arr)).
    + rewrite firstn_all, drop_all. reflexivity.
    + unfold relative_index. destruct (Z.ltb_spec i 0); lia.
  - intros k Hk. apply insertAt_at. unfold relative_index. destruct (Z.ltb_spec (- k) 0); lia.
Qed.

End ArrayExtras.

Module PathFacts.
Import Utils ArrayFacts NumeralFacts.
Local Open Scope string_scope.

Lemma length_las (s : string) : String.length s = length (list_ascii_of_string s).
Proof. induction s as [|c r IH]; simpl; congruence. Qed.

Lemma lastIndexOf_from_notin c l i best :
  ~ In c l -> lastIndexOf_from c l i best = best.
Proof.
  revert i best. induction l as [|x r IH]; intros i best Hn; [done|]. simpl.
  destruct (Ascii.eqb x c) eqn:E; [apply Ascii.eqb_eq in E; subst; exfalso; apply Hn; by left|].
  apply IH. intros H. apply Hn. by right.
Qed.

Lemma lastIndexOf_from_last c l1 l2 i best :
  ~ In c l2 -> lastIndexOf_from c (l1 ++ c :: l2) i best = i + Z.of_nat (length l1).
Proof.
  revert i best. induction l1 as [|x r IH]; intros i best Hn; simpl.
  - rewrite Ascii.eqb_refl, lastIndexOf_from_notin by done. lia.
  - rewrite IH by done. lia.
Qed.

Lemma las_path (dir name : string) :
  list_ascii_of_string (dir ++ "/" ++ name) = (list_ascii_of_string dir ++ "/"%char :: list_ascii_of_string name)%list.
Proof. rewrite las_append. reflexivity. Qed.

Lemma pathToName_nosep (name : string) :
  ~ In "/"%char (list_ascii_of_string name) -> pathToName name = name.
Proof.
  intros Hn. unfold pathToName, lastIndexOf. rewrite lastIndexOf_from_notin by done.
  unfold js_slice. simpl (-1 + 1). unfold relative_index at 1. simpl.
  rewrite length_las, Nat.sub_0_r, firstn_all. apply string_of_list_ascii_of_string.
Qed.

Lemma pathToName_dir (dir name : string) :
  ~ In "/"%char (list_ascii_of_string name) -> pathToName (dir ++ "/" ++ name) = name.
Proof.
  intros Hn. unfold pathToName, lastIndexOf, js_slice. rewrite las_path.
  rewrite lastIndexOf_from_last by done. rewrite length_las, las_path, length_app. simpl length.
  replace (relative_index (length (list_ascii_of_string dir) + S (length (list_ascii_of_string name)))
             (0 + Z.of_nat (length (list_ascii_of_string dir)) + 1))
    with (length (list_ascii_of_string dir) + 1)%nat
    by (unfold relative_index; destruct (Z.ltb_spec (0 + Z.of_nat (length (list_ascii_of_string dir)) + 1) 0); lia).
  replace (length (list_ascii_of_string dir) + S (length (list_ascii_of_string name))
           - (length (list_ascii_of_string dir) + 1))%nat
    with (length (list_ascii_of_string name)) by lia.
  rewrite drop_app_add. simpl. rewrite firstn_all. apply string_of_list_ascii_of_string.
Qed.

Lemma las_sep (a : string) (c : ascii) (b : string) :
  list_ascii_of_string (a ++ String c EmptyString ++ b) = (list_ascii_of_string a ++ c :: list_ascii_of_string b)%list.
Proof. rewrite las_append. reflexivity. Qed.

Lemma baseName_of_name (name base ext : string) :
  pathToName name = base ++ "." ++ ext -> ~ In "."%char (list_ascii_of_string ext) ->
  pathToBaseName name = base.
Proof.
  intros Hp Hn. unfold pathToBaseName. rewrite Hp. unfold lastIndexOf.
  rewrite las_sep, lastIndexOf_from_last by done.
  rewrite (proj2 (Z.leb_le _ _)) by lia.
  unfold js_slice. rewrite length_las, las_sep, length_app. simpl length.
  unfold relative_index. simpl Z.ltb.
  destruct (Z.ltb_spec (0 + Z.of_nat (length (list_ascii_of_string base))) 0)%Z; [lia|].
  replace (Nat.min (Z.to_nat (0 + Z.of_nat (length (list_ascii_of_string base)))%Z)
             (length (list_ascii_of_string base) + S (length (list_ascii_of_string ext))))
    with (length (list_ascii_of_string base)) by lia.
  rewrite Nat.sub_0_r, drop_0, take_app_length. apply string_of_list_ascii_of_string.
Qed.

Lemma baseName_of_name_nodot (name : string) :
  ~ In "."%char (list_ascii_of_string (pathToName name)) -> pathToBaseName name = pathToName name.
Proof.
  intros Hn. unfold pathToBaseName, lastIndexOf. rewrite lastIndexOf_from_notin by done. reflexivity.
Qed.

End PathFacts.

Module PathExtras.
Import Utils PathFacts NumeralFacts.
Local Open Scope string_scope.

(** [pathToName] returns the part of the path after its last ["/"], and a
    path without ["/"] whole. *)
Theorem pathToName_last_segment (dir name : string) :
  ~ In "/"%char (list_ascii_of_string name) ->
  pathToName (dir ++ "/" ++ name) = name /\ pathToName name = name.
Proof. intros Hn. split; [by apply pathToName_dir|by apply pathToName_nosep]. Qed.

Lemma pathToName_last_segment_witness :
  pathToName ("a/b" ++ "/" ++ "c.md") = "c.md" /\ pathToName "c.md" = "c.md".
Proof. apply pathToName_last_segment. simpl. intuition discriminate. Defined.

(** [pathToBaseName] drops the directory and the last extension: the file
    name is cut before its last ["."]. A dot file such as [".obsidian"]
    gives the empty name, and a file name without ["."] is kept whole. *)
Theorem pathToBaseName_strips_extension (dir base ext : string) :
  ~ In "/"%char (list_ascii_of_string base) -> ~ In "/"%char (list_ascii_of_string ext) ->
  ~ In "."%char (list_ascii_of_string ext) ->
  pathToBaseName (dir ++ "/" ++ base ++ "." ++ ext) = base /\
  pathToBaseName (base ++ "." ++ ext) = base /\
  (~ In "."%char (list_ascii_of_string base) ->
   pathToBaseName (dir ++ "/" ++ base) = base /\ pathToBaseName base = base).
Proof.
  intros Hb He Hd.
  assert (Hn : ~ In "/"%char (list_ascii_of_string (base ++ "." ++ ext))).
  { rewrite las_sep. intros H. apply in_app_or in H as [H|[H|H]]; [done|discriminate|done]. }
  split; [|split].
  - eapply baseName_of_name; [|exact Hd]. by apply pathToName_dir.
  - eapply baseName_of_name; [|exact Hd]. by apply pathToName_nosep.
  - intros Hbd. split.
    + rewrite baseName_of_name_nodot; rewrite pathToName_dir by done; done.
    + rewrite baseName_of_name_nodot; rewrite pathToName_nosep by done; done.
Qed.

Lemma pathToBaseName_strips_extension_witness :
  pathToBaseName ("vault/notes" ++ "/" ++ "a.b" ++ "." ++ "md") = "a.b" /\
  pathToBaseName ("a.b" ++ "." ++ "md") = "a.b" /\
  (~ In "."%char (list_ascii_of_string "a.b") ->
   pathToBaseName ("vault/notes" ++ "/" ++ "a.b") = "a.b" /\ pathToBaseName "a.b" = "a.b").
Proof. apply pathToBaseName_strips_extension; simpl; intuition discriminate. Defined.

(** For ranges with [from <= to], [hasOverlap] holds exactly when some
    position lies in both ranges, ends included, so ranges that only touch
    overlap; the test is symmetric. *)
Theorem hasOverlap_common_point (r1 r2 : range) :
  (r_from r1 <= r_to r1)%Z -> (r_from r2 <= r_to r2)%Z ->
  (hasOverlap r1 r2 = true <->
   exists x, (r_from r1 <= x <= r_to r1)%Z /\ (r_from r2 <= x <= r_to r2)%Z) /\
  hasOverlap r1 r2 = hasOverlap r2 r1.
Proof.
  intros H1 H2. unfold hasOverlap. split; [|apply andb_comm].
  rewrite andb_true_iff, !Z.leb_le. split.
  - intros [Ha Hb]. exists (Z.max (r_from r1) (r_from r2)). lia.
  - intros (x & Hx1 & Hx2). lia.
Qed.

Lemma hasOverlap_common_point_witness :
  (hasOverlap {| r_from := 0; r_to := 5 |} {| r_from := 5; r_to := 9 |} = true <->
   exists x, (0 <= x <= 5)%Z /\ (5 <= x <= 9)%Z) /\
  hasOverlap {| r_from := 0; r_to := 5 |} {| r_from := 5; r_to := 9 |}
  = hasOverlap {| r_from := 5; r_to := 9 |} {| r_from := 0; r_to := 5 |}.
Proof. apply (hasOverlap_common_point {| r_from := 0; r_to := 5 |} {| r_from := 5; r_to := 9 |}); simpl; lia. Defined.

End PathExtras.

Module FilesFacts.
Import JS Resolve Files NumeralFacts.


Lemma chain_wf_parent a p : af_parent a = Some p -> chain_wf a -> chain_wf p.
Proof.
  intros Hp Hw x Hx. apply Hw. destruct a as [pa ra qa]. simpl in Hp. subst qa. simpl. by right.
Qed.

Lemma parent_chain_cons a : parent_chain a = a :: match af_parent a with Some p => parent_chain p | None => [] end.
Proof. by destruct a. Qed.

Lemma ancestor_loop_chain fuel a file2 :
  chain_wf a -> (length (parent_chain a) <= fuel)%nat ->
  ancestor_loop fuel (Some a) file2 = Some (bool_decide (file2 ∈ parent_chain a)).
Proof.
  revert a. induction fuel as [|f IH]; intros a Hw Hl.
  { rewrite parent_chain_cons in Hl. simpl in Hl. lia. }
  simpl. destruct (decide (Some a = Some file2)) as [Heq|Hne].
  - injection Heq as ->. f_equal. symmetry. apply bool_decide_eq_true.
    rewrite parent_chain_cons. apply list_elem_of_here.
  - assert (Hne' : a <> file2) by congruence.
    destruct (af_is_root a) eqn:Er.
    + assert (Hp : af_parent a = None) by (apply Hw; [rewrite parent_chain_cons; by left|done]).
      f_equal. symmetry. apply bool_decide_eq_false. rewrite parent_chain_cons, Hp.
      intros H. apply list_elem_of_singleton in H. congruence.
    + destruct (af_parent a) as [p|] eqn:Hp.
      * rewrite IH.
        -- f_equal. apply bool_decide_ext. rewrite (parent_chain_cons a), Hp.
           rewrite elem_of_cons. split; [by right|]. intros [->|H]; [congruence|done].
        -- by apply (chain_wf_parent a).
        -- rewrite parent_chain_cons, Hp in Hl. simpl in Hl. lia.
      * exfalso. assert (af_is_root a = true) by (apply Hw; [rewrite parent_chain_cons; by left|done]).
        congruence.
Qed.

Lemma ancestor_loop_none fuel file2 : ancestor_loop fuel None file2 = None.
Proof.
  induction fuel as [|f IH]; [done|]. simpl.
  destruct (decide (None = Some file2)); [discriminate|done].
Qed.

(** [isEqualToOrChildOf] on a non-root [file1] of a well-formed chain. *)
Lemma isEqualToOrChildOf_chain fuel file1 file2 :
  chain_wf file1 -> af_is_root file1 = false -> (length (parent_chain file1) <= fuel)%nat ->
  isEqualToOrChildOf fuel file1 file2
  = Some (bool_decide (file1 = file2 \/ af_is_root file2 = true \/ file2 ∈ tail (parent_chain file1))).
Proof.
  intros Hw Hr Hl. unfold isEqualToOrChildOf.
  destruct (decide (file1 = file2)) as [<-|Hne].
  { f_equal. symmetry. apply bool_decide_eq_true. by left. }
  destruct (af_is_root file2) eqn:E2.
  { f_equal. symmetry. apply bool_decide_eq_true. by right; left. }
  destruct (af_parent file1) as [p|] eqn:Hp.
  - rewrite ancestor_loop_chain.
    + f_equal. apply bool_decide_ext. rewrite (parent_chain_cons file1), Hp. simpl.
      split; [by right; right|]. intros [H|[H|H]]; [done|discriminate|done].
    + by apply (chain_wf_parent file1).
    + rewrite parent_chain_cons, Hp in Hl. simpl in Hl. lia.
  - exfalso. assert (af_is_root file1 = true) by (apply Hw; [rewrite parent_chain_cons; by left|done]).
    congruence.
Qed.

Lemma excluded_loop_chain fuel get file paths :
  chain_wf file -> af_is_root file = false -> (length (parent_chain file) <= fuel)%nat ->
  exists b, excluded_loop fuel get file paths = Some b /\
    (b = true <-> forall path f, In path paths -> get path = Some f ->
       ~ (file = f \/ af_is_root f = true \/ f ∈ tail (parent_chain file))).
Proof.
  intros Hw Hr Hl. induction paths as [|path rest IHp].
  - exists true. split; [done|]. split; [|done]. intros _ path f [].
  - destruct IHp as (b & Hb & Hiff). simpl. destruct (get path) as [f|] eqn:Eg.
    + rewrite isEqualToOrChildOf_chain by done.
      destruct (bool_decide_reflect (file = f \/ af_is_root f = true \/ f ∈ tail (parent_chain file))) as [Hin|Hnin].
      * exists false. split; [done|]. split; [discriminate|]. intros H.
        exfalso. apply (H path f); [by left|done|done].
      * exists b. split; [done|]. rewrite Hiff. split.
        -- intros H path' f' [<-|Hp] Hg; [congruence|]. by apply (H path' f').
        -- intros H path' f' Hp Hg. apply (H path' f'); [by right|done].
    + exists b. split; [done|]. rewrite Hiff. split.
      * intros H path' f' [<-|Hp] Hg; [congruence|]. by apply (H path' f').
      * intros H path' f' Hp Hg. apply (H path' f'); [by right|done].
Qed.

Lemma vnode_ind' (P : vnode -> Prop)
  (Hf : forall p e, P (VFile p e))
  (Hd : forall p ch, Forall P ch -> P (VFolder p ch)) : forall n, P n.
Proof.
  fix IH 1. intros [p e|p ch]; [apply Hf|].
  refine (Hd p ch ((fix go (l : list vnode) : Forall P l :=
                      match l with [] => @List.Forall_nil _ P | c :: r => @List.Forall_cons _ P c r (IH c) (go r) end) ch)).
Qed.

Lemma iterDescendantFiles_folder p ch ext :
  iterDescendantFiles (VFolder p ch) ext = flat_map (fun c => iterDescendantFiles c ext) ch.
Proof.
  induction ch as [|c r IH]; [done|]. simpl in *. by rewrite IH.
Qed.

Lemma toString_radix_hex d : (0 <= d < 16)%Z -> toString_radix d 16 = String (digit_char d) EmptyString.
Proof.
  intros Hd. unfold toString_radix, digits_in_base. rewrite Z.abs_eq by lia. simpl digits_fuel.
  rewrite (proj2 (Z.ltb_lt d 16)) by lia. rewrite (proj2 (Z.ltb_ge d 0)) by lia. reflexivity.
Qed.

Lemma draw_id_spec len rnd parts rest :
  draw_id len rnd = Some (parts, rest) ->
  parts = map (fun d => Some (toString_radix d 16)) (take len rnd) /\ rest = drop len rnd /\
  (len <= length rnd)%nat.
Proof.
  revert rnd parts rest. induction len as [|k IH]; intros rnd parts rest H.
  - simpl in H. injection H as <- <-. simpl. split; [done|]. split; [done|lia].
  - destruct rnd as [|d r]; [discriminate|]. simpl in H.
    destruct (draw_id k r) as [[ps rs]|] eqn:E; [|discriminate].
    injection H as <- <-. destruct (IH r ps rs E) as (-> & -> & Hl).
    simpl. split; [done|]. split; [done|lia].
Qed.

Lemma join_hex ds :
  join EmptyString (map (fun d => Some (String (digit_char d) EmptyString)) ds)
  = string_of_chars (map digit_char ds).
Proof.
  induction ds as [|d r IH]; [done|]. destruct r as [|d' r']; [done|].
  transitivity (String (digit_char d)
    (join EmptyString (map (fun d => Some (String (digit_char d) EmptyString)) (d' :: r')))); [reflexivity|].
  rewrite IH. reflexivity.
Qed.

Lemma digit_char_hex d : (0 <= d < 16)%Z -> is_hex_char (digit_char d) = true.
Proof.
  intros Hd.
  assert (d = 0 \/ d = 1 \/ d = 2 \/ d = 3 \/ d = 4 \/ d = 5 \/ d = 6 \/ d = 7 \/ d = 8 \/ d = 9 \/
          d = 10 \/ d = 11 \/ d = 12 \/ d = 13 \/ d = 14 \/ d = 15)%Z as Hc by lia.
  repeat destruct Hc as [->|Hc]; [reflexivity..|]. subst. reflexivity.
Qed.

(** One turn of [generateBlockID] that draws digits in [0, 16). *)
Lemma generateBlockID_draw len rnd parts rest :
  Forall (fun d => 0 <= d < 16)%Z rnd -> draw_id len rnd = Some (parts, rest) ->
  String.length (join EmptyString parts) = len /\
  Forall (fun c => is_hex_char c = true) (list_ascii_of_string (join EmptyString parts)) /\
  Forall (fun d => 0 <= d < 16)%Z rest.
Proof.
  intros Hr Hd. destruct (draw_id_spec len rnd parts rest Hd) as (-> & -> & Hl).
  assert (Ht : Forall (fun d => 0 <= d < 16)%Z (take len rnd)) by by apply Forall_take.
  assert (Hm : map (fun d => Some (toString_radix d 16)) (take len rnd)
              = map (fun d => Some (String (digit_char d) EmptyString)) (take len rnd)).
  { apply map_ext_Forall. eapply Forall_impl; [exact Ht|]. intros d Hd'. simpl.
    by rewrite toString_radix_hex. }
  rewrite Hm.
  rewrite join_hex, string_of_chars_length, las_string_of_chars, !length_map, length_take.
  split; [lia|]. split; [|by apply Forall_drop].
  apply Forall_map. eapply Forall_impl; [exact Ht|]. intros d Hd'. by apply digit_char_hex.
Qed.

End FilesFacts.

Module FilesExtras.
Import Resolve Files FilesFacts FilesExample.
Local Open Scope string_scope.

(** On a non-root entry whose parent chain is well formed (it ends in the
    root folder, and only the root has no parent), [isEqualToOrChildOf]
    returns whether [file2] is [file1] itself, the root folder, or one of
    [file1]'s ancestors. *)
Theorem isEqualToOrChildOf_ancestors fuel file1 file2 :
  chain_wf file1 -> af_is_root file1 = false -> (length (parent_chain file1) <= fuel)%nat ->
  isEqualToOrChildOf fuel file1 file2
  = Some (bool_decide (file1 = file2 \/ af_is_root file2 = true \/ file2 ∈ tail (parent_chain file1))).
Proof. apply isEqualToOrChildOf_chain. Qed.

Lemma isEqualToOrChildOf_ancestors_witness :
  isEqualToOrChildOf 3 note_b folder_a
  = Some (bool_decide (note_b = folder_a \/ af_is_root folder_a = true \/ folder_a ∈ tail (parent_chain note_b))).
Proof.
  apply isEqualToOrChildOf_ancestors.
  - intros x Hx. simpl in Hx. destruct Hx as [<-|[<-|[<-|[]]]]; simpl; split; congruence.
  - reflexivity.
  - simpl. lia.
Defined.

(** The loop of [isEqualToOrChildOf] never returns when [file1] has no
    parent (the root folder) and [file2] is neither [file1] nor the root:
    no amount of fuel gives a result. *)
Theorem isEqualToOrChildOf_no_parent_diverges fuel file1 file2 :
  af_parent file1 = None -> file1 <> file2 -> af_is_root file2 = false ->
  isEqualToOrChildOf fuel file1 file2 = None.
Proof.
  intros Hp Hne Hr. unfold isEqualToOrChildOf.
  destruct (decide (file1 = file2)); [done|]. rewrite Hr, Hp. apply ancestor_loop_none.
Qed.

Lemma isEqualToOrChildOf_no_parent_diverges_witness :
  isEqualToOrChildOf 100 vault_root folder_a = None.
Proof. apply isEqualToOrChildOf_no_parent_diverges; [reflexivity|discriminate|reflexivity]. Defined.

(** [filterCallback] keeps a note or folder (not the root, whose check
    keeps [isEqualToOrChildOf] from looping) exactly when no existing
    excluded path is the entry itself, the root folder, or one of its
    ancestor folders. *)
Theorem filterCallback_excluded fuel get excludedFiles e :
  match e_extension e with Some ext => ext = "md" | None => True end ->
  af_is_root (e_file e) = false -> chain_wf (e_file e) ->
  (length (parent_chain (e_file e)) <= fuel)%nat ->
  exists b, filterCallback fuel get excludedFiles e = Some b /\
    (b = true <-> forall path f, In path excludedFiles -> get path = Some f ->
       ~ (e_file e = f \/ af_is_root f = true \/ f ∈ tail (parent_chain (e_file e)))).
Proof.
  intros He Hr Hw Hl. unfold filterCallback.
  destruct (e_extension e) as [ext|]; [subst ext; simpl|]; rewrite Hr; by apply excluded_loop_chain.
Qed.

Lemma filterCallback_excluded_witness :
  exists b, filterCallback 3 get_by_path ["a"] {| e_file := note_b; e_extension := Some "md" |} = Some b /\
    (b = true <-> forall path f, In path ["a"] -> get_by_path path = Some f ->
       ~ (note_b = f \/ af_is_root f = true \/ f ∈ tail (parent_chain note_b))).
Proof.
  apply (filterCallback_excluded 3 get_by_path ["a"] {| e_file := note_b; e_extension := Some "md" |}).
  - reflexivity.
  - reflexivity.
  - intros x Hx. simpl in Hx. destruct Hx as [<-|[<-|[<-|[]]]]; simpl; split; congruence.
  - simpl. lia.
Defined.

(** [iterDescendantFiles] passes only files to its callback; with an
    extension it passes exactly the files, in the same order, that it
    passes without one and that have this extension. *)
Theorem iterDescendantFiles_extension (n : vnode) (e : string) (ext : option string) :
  iterDescendantFiles n (Some e)
  = List.filter (fun f => match f with VFile _ x => String.eqb x e | VFolder _ _ => false end)
      (iterDescendantFiles n None) /\
  Forall (fun f => exists p x, f = VFile p x) (iterDescendantFiles n ext).
Proof.
  induction n as [p x|p ch IH] using vnode_ind'.
  - simpl. split; [by destruct (String.eqb x e)|].
    destruct ext as [y|]; [destruct (String.eqb x y)|]; repeat constructor; eauto.
  - rewrite !iterDescendantFiles_folder. induction IH as [|c r [Hc Hf] _ [Hr Hrf]]; [done|].
    simpl. rewrite List.filter_app, Hc, Hr. split; [done|]. by apply Forall_app.
Qed.

(** When the random digits are in [[0, 16)], an id that [generateBlockID]
    returns has the requested length and consists of lowercase hexadecimal
    digits, whether or not the cache has a blocks record; when it has one,
    the id is not one of its block ids. *)
Theorem generateBlockID_fresh fuel (blocks : option (gset string)) len rnd id :
  Forall (fun d => 0 <= d < 16)%Z rnd -> generateBlockID fuel blocks len rnd = Some id ->
  (forall b, blocks = Some b -> id ∉ b) /\ String.length id = len /\
  Forall (fun c => is_hex_char c = true) (list_ascii_of_string id).
Proof.
  revert rnd. induction fuel as [|f IH]; intros rnd Hr H; [discriminate|]. simpl in H.
  destruct (draw_id len rnd) as [[parts rest]|] eqn:Ed; [|discriminate].
  destruct (generateBlockID_draw len rnd parts rest Hr Ed) as (Hl & Hh & Hrest).
  destruct blocks as [b|].
  - destruct (bool_decide_reflect (join EmptyString parts ∈ b)) as [Hin|Hnin].
    + by apply (IH rest).
    + injection H as <-. split; [|by split]. intros b' Hb'. by injection Hb' as <-.
  - injection H as <-. split; [|by split]. intros b' Hb'. discriminate.
Qed.

Lemma generateBlockID_fresh_witness :
  ((forall b, Some ({["ab"]} : gset string) = Some b -> "ac" ∉ b) /\ String.length "ac" = 2%nat /\
   Forall (fun c => is_hex_char c = true) (list_ascii_of_string "ac")) /\
  ((forall b, (None : option (gset string)) = Some b -> "ab" ∉ b) /\ String.length "ab" = 2%nat /\
   Forall (fun c => is_hex_char c = true) (list_ascii_of_string "ab")).
Proof.
  split.
  - apply (generateBlockID_fresh 5 (Some {["ab"]}) 2 [10; 11; 10; 12]%Z).
    + apply List.Forall_forall. intros x Hx. simpl in Hx. intuition lia.
    + reflexivity.
  - apply (generateBlockID_fresh 5 None 2 [10; 11]%Z).
    + apply List.Forall_forall. intros x Hx. simpl in Hx. intuition lia.
    + reflexivity.
Defined.

End FilesExtras.

Module MoreFacts.
Import JS Numeral RomanParse NumeralFacts Callout Prefix UtilsFacts.

Lemma until_bracket_blob (g rest : list ascii) :
  forallb (fun c => negb (Ascii.eqb c "]") && negb (is_line_terminator c)) g = true ->
  until_bracket (g ++ "]"%char :: rest) = Some (g, rest).
Proof.
  induction g as [|c g IH]; intros H; [reflexivity|]. simpl in H |- *.
  apply andb_prop in H as [Hc Hg]. apply andb_prop in Hc as [Hb Ht].
  apply negb_true_iff in Hb, Ht. rewrite Hb, Ht, IH by done. reflexivity.
Qed.

Lemma exec_unfold l :
  exec l = match match_at l with Some m => Some m | None => match l with [] => None | _ :: r => exec r end end.
Proof. destruct l; reflexivity. Qed.

(** [THEOREM_CALLOUT_PATTERN] on a header written as ["> [!math|"], a
    blob, ["]"] and the rest of the line. *)
Lemma matchTheoremCallout_header (blob rest : string) :
  forallb (fun c => negb (Ascii.eqb c "]") && negb (is_line_terminator c)) (list_ascii_of_string blob) = true ->
  forallb (fun c => negb (is_line_terminator c)) (list_ascii_of_string rest) = true ->
  matchTheoremCallout ("> [!math|" ++ blob ++ "]" ++ rest)%string = Some (blob, rest).
Proof.
  intros Hb Hr. unfold matchTheoremCallout. simpl Prefix.truthy. cbv iota.
  rewrite exec_unfold. rewrite !las_append. simpl. rewrite until_bracket_blob by done.
  rewrite until_eol_id.
  - rewrite !string_of_list_ascii_of_string. reflexivity.
  - apply List.Forall_forall. intros c Hc. eapply forallb_forall in Hr; [|exact Hc].
    by apply negb_true_iff.
Qed.

Lemma js_String_nonneg n : 0 <= n -> js_String n = string_of_chars (map digit_char (digits_in_base 10 n)).
Proof.
  intros Hn. unfold js_String, toString_radix. rewrite Z.abs_eq by lia.
  by replace (n <? 0) with false by (symmetry; apply Z.ltb_ge; lia).
Qed.

(** The loop pops only the digits of [Y] and builds the same string as
    on [Y] alone. *)
Lemma roman_loop_split (X Y : list string) (r : string) :
  roman_loop (length Y) (X ++ Y) r = (X, snd (roman_loop (length Y) Y r)).
Proof.
  revert r. induction Y as [|y Y IH] using rev_ind; intros r.
  - by rewrite app_nil_r.
  - rewrite length_app, Nat.add_comm. simpl.
    rewrite app_assoc, !pop_snoc. apply IH.
Qed.

Lemma below_1000_all : forallb below_1000_ok below_1000 = true.
Proof. vm_compute. reflexivity. Qed.

Lemma toRomanUpper_below_1000 m : 0 <= m < 1000 ->
  toRomanUpper m = Ok (roman_of_digits (m / 100) ((m / 10) mod 10) (m mod 10)).
Proof.
  intros Hm. assert (Hin : In m below_1000).
  { unfold below_1000. apply in_map_iff. exists (Z.to_nat m). split; [lia|]. apply in_seq. lia. }
  pose proof (proj1 (forallb_forall _ _) below_1000_all m Hin) as H.
  unfold below_1000_ok in H. destruct (toRomanUpper m) as [s|e]; [|discriminate H].
  apply String.eqb_eq in H. by subst.
Qed.

Lemma to_number_str_digits (ds : list Z) :
  ds <> [] -> Forall (fun d => 0 <= d < 10) ds ->
  to_number_str (string_of_chars (map digit_char ds)) = JN (fold_left (fun a d => a * 10 + d) ds 0).
Proof.
  intros Hne Hf. unfold to_number_str.
  rewrite js_trim_nospace.
  2:{ rewrite las_string_of_chars.
      apply Forall_map. eapply Forall_impl; [exact Hf|]. intros d Hd. by apply digit_char_nospace. }
  destruct ds as [|d ds]; [done|]. inversion Hf as [|? ? Hd Hds]; subst.
  simpl map. simpl string_of_chars.
  assert (d = 0 \/ d = 1 \/ d = 2 \/ d = 3 \/ d = 4 \/ d = 5 \/ d = 6 \/ d = 7 \/ d = 8 \/ d = 9) as Hc by lia.
  pose proof (digit_prefix_digits ds) as Hdp. pose proof (string_of_chars_length (map digit_char ds)) as Hl.
  generalize dependent (string_of_chars (map digit_char ds)). intros rest Hdp Hl.
  repeat destruct Hc as [->|Hc]; [..|subst]; simpl; rewrite Hdp by done; simpl;
    rewrite Hl, length_map, Nat.eqb_refl; f_equal; rewrite Z.mul_1_l; reflexivity.
Qed.

Lemma digits_mod_1000 n : 0 <= n ->
  (n mod 1000) / 100 = (n / 100) mod 10 /\ ((n mod 1000) / 10) mod 10 = (n / 10) mod 10 /\
  (n mod 1000) mod 10 = n mod 10.
Proof.
  intros Hn.
  assert (E : n = 1000 * (n / 1000) + n mod 1000) by (apply Z.div_mod; lia).
  assert (Hm : 0 <= n mod 1000 < 1000) by (apply Z.mod_pos_bound; lia).
  set (q := n / 1000) in *. set (m := n mod 1000) in *. clearbody q m. subst n.
  assert (H100 : 0 <= m / 100 < 10) by (split; [apply Z.div_pos|apply Z.div_lt_upper_bound]; lia).
  replace ((1000 * q + m) / 100) with (m / 100 + q * 10)
    by (replace (1000 * q + m) with (m + (10 * q) * 100) by ring; rewrite Z.div_add by lia; ring).
  replace ((1000 * q + m) / 10) with (m / 10 + (10 * q) * 10)
    by (replace (1000 * q + m) with (m + (100 * q) * 10) by ring; rewrite Z.div_add by lia; ring).
  replace (1000 * q + m) with (m + (100 * q) * 10) by ring.
  rewrite !Z.mod_add by lia. rewrite Z.mod_small by lia. auto.
Qed.

Lemma length_append (a b : string) : String.length (a ++ b)%string = (String.length a + String.length b)%nat.
Proof. induction a as [|c a IH]; [reflexivity|]. rewrite append_cons. simpl. by rewrite IH. Qed.

Lemma substring_append (a b : string) n :
  String.substring (String.length a) n (a ++ b)%string = String.substring 0 n b.
Proof. induction a as [|c a IH]; [reflexivity|]. rewrite append_cons. simpl. apply IH. Qed.

Lemma substring_all (t : string) : String.substring 0 (String.length t) t = t.
Proof. induction t as [|c t IH]; [reflexivity|]. simpl. by rewrite IH. Qed.

(** Appending [t] makes a string end with [t]. *)
Lemma endsWith_append (a t : string) : endsWith (a ++ t)%string t = true.
Proof.
  unfold endsWith. rewrite length_append.
  replace (String.length a + String.length t - String.length t)%nat with (String.length a) by lia.
  rewrite substring_append, substring_all, String.eqb_refl. simpl. apply Nat.leb_le. lia.
Qed.

Lemma inferNumberPrefix_ends source parseSep printSep n p :
  inferNumberPrefix source parseSep printSep n = Ok (Some p) -> endsWith p printSep = true.
Proof.
  unfold inferNumberPrefix. destruct (char_class parseSep) as [sep|e]; [|discriminate]. simpl.
  destruct (areValidLabels _); [|discriminate].
  destruct (endsWith (join_str printSep _) printSep) eqn:E; intros H; injection H as <-;
    [exact E|apply endsWith_append].
Qed.

(** [toRomanUpper] from 1000 up: the thousands, then the last three digits. *)
Lemma toRomanUpper_thousands_split (n : Z) :
  (1000 <= n)%Z ->
  toRomanUpper n =
    if (n / 1000 + 1 <? 2 ^ 32)%Z then
      let! r := toRomanUpper (n mod 1000) in Ok (repeat_string (Z.to_nat (n / 1000)) "M" ++ r)%string
    else Throw RangeError.
Proof.
  intros Hn. assert (Hq : (1 <= n / 1000)%Z) by (apply Z.div_le_lower_bound; lia).
  set (X := map (fun c => String c EmptyString) (map digit_char (digits_in_base 10 (n / 1000)))).
  set (Y := map (fun c => String c EmptyString)
              (map digit_char [(n / 100) mod 10; (n / 10) mod 10; n mod 10]%Z)).
  assert (Hs : split_chars (js_String n) = (X ++ Y)%list).
  { rewrite js_String_nonneg by lia. rewrite digits_thousands by lia.
    rewrite map_app, NumeralFacts.split_chars_of_chars, map_app. reflexivity. }
  unfold toRomanUpper at 1. rewrite Hs. rewrite (roman_loop_split X Y). cbv zeta.
  assert (Hj : join EmptyString (map Some X) = string_of_chars (map digit_char (digits_in_base 10 (n / 1000)))).
  { unfold X. apply NumeralFacts.join_singletons. }
  rewrite Hj, to_number_str_digits.
  2:{ apply NumeralFacts.digits_nonempty. lia. }
  2:{ apply NumeralFacts.digits_range. lia. }
  rewrite NumeralFacts.digits_value by lia. simpl num_add.
  rewrite toRomanUpper_below_1000 by (apply Z.mod_pos_bound; lia).
  destruct (digits_mod_1000 n) as (E1 & E2 & E3); [lia|]. rewrite E1, E2, E3.
  unfold array_join_holes.
  destruct (Z.ltb_spec (n / 1000 + 1) (2 ^ 32)) as [Hlt|Hge].
  - replace ((n / 1000 + 1 <? 0) || (2 ^ 32 <=? n / 1000 + 1))%Z with false
      by (symmetry; apply orb_false_iff; split; [apply Z.ltb_ge|apply Z.leb_gt]; lia).
    replace (Nat.pred (Z.to_nat (n / 1000 + 1))) with (Z.to_nat (n / 1000)) by lia.
    reflexivity.
  - replace ((n / 1000 + 1 <? 0) || (2 ^ 32 <=? n / 1000 + 1))%Z with true
      by (symmetry; apply orb_true_iff; right; apply Z.leb_le; lia).
    reflexivity.
Qed.

(** [toRomanUpper] on every integer: a string on [-1999 .. -1000] and on
    [-99 .. 4294967294999], a [RangeError] everywhere else. *)
Lemma toRomanUpper_all (n : Z) :
  ((exists s, toRomanUpper n = Ok s) <-> (-1999 <= n <= -1000 \/ -99 <= n < 4294967295000)%Z) /\
  (forall e, toRomanUpper n = Throw e -> e = RangeError).
Proof.
  destruct (Z.le_gt_cases n 0) as [Hn|Hn].
  { destruct (NumeralNonpositive.toRomanUpper_nonpositive n Hn) as [Hiff Herr].
    split; [|exact Herr]. rewrite Hiff. lia. }
  destruct (Z.lt_ge_cases n 1000) as [Hs|Hb].
  { rewrite toRomanUpper_below_1000 by lia. split; [|discriminate].
    split; [lia|eauto]. }
  assert (Hm : (0 <= n mod 1000 < 1000)%Z) by (apply Z.mod_pos_bound; lia).
  rewrite toRomanUpper_thousands_split by lia.
  destruct (Z.ltb_spec (n / 1000 + 1) (2 ^ 32)) as [Hlt|Hge].
  - rewrite toRomanUpper_below_1000 by exact Hm. simpl. split; [|discriminate].
    split; [intros _|eauto].
    assert (n / 1000 < 4294967295)%Z by (simpl in Hlt; lia).
    assert (n < 4294967295000)%Z.
    { destruct (Z.lt_ge_cases n 4294967295000) as [?|Hge]; [done|].
      assert (4294967295 <= n / 1000)%Z by (apply Z.div_le_lower_bound; lia). lia. }
    lia.
  - split; [|by injection 1]. split; [intros [? Hc]; discriminate Hc|].
    intros Hr. exfalso.
    assert (n / 1000 < 4294967295)%Z by (apply Z.div_lt_upper_bound; lia).
    simpl in Hge. lia.
Qed.

End MoreFacts.

Module MoreExtras.
Import JS Numeral Callout CalloutRead Prefix Title NumeralFacts MoreFacts.
Local Open Scope string_scope.

(** On a header ["> [!math|" + blob + "]" + rest] whose blob holds no
    ["]"] and no line terminator and whose rest holds no line terminator,
    the settings are [JSON.parse(blob)] and the title is the trimmed rest;
    a blob that does not parse makes all three readers throw a
    [SyntaxError]. *)
Theorem readTheoremCallout_header (parse : string -> option json) (blob rest : string) :
  forallb (fun c => negb (Ascii.eqb c "]") && negb (is_line_terminator c)) (list_ascii_of_string blob) = true ->
  forallb (fun c => negb (is_line_terminator c)) (list_ascii_of_string rest) = true ->
  readTheoremCalloutSettingsAndTitle parse ("> [!math|" ++ blob ++ "]" ++ rest)
    = match parse blob with Some v => Ok (Some (v, js_trim rest)) | None => Throw SyntaxError end /\
  readTheoremCalloutSettings parse ("> [!math|" ++ blob ++ "]" ++ rest)
    = match parse blob with Some v => Ok (Some v) | None => Throw SyntaxError end /\
  readTheoremCalloutTitle parse ("> [!math|" ++ blob ++ "]" ++ rest)
    = match parse blob with Some _ => Ok (Some (js_trim rest)) | None => Throw SyntaxError end.
Proof.
  intros Hb Hr.
  unfold readTheoremCalloutSettings, readTheoremCalloutTitle, readTheoremCalloutSettingsAndTitle.
  rewrite matchTheoremCallout_header by done. destruct (parse blob); repeat split.
Qed.

Lemma readTheoremCallout_header_witness :
  readTheoremCalloutSettingsAndTitle JSON_parse ("> [!math|" ++ "{}" ++ "]" ++ " Lemma ")
    = match JSON_parse "{}" with Some v => Ok (Some (v, js_trim " Lemma ")) | None => Throw SyntaxError end /\
  readTheoremCalloutSettings JSON_parse ("> [!math|" ++ "{}" ++ "]" ++ " Lemma ")
    = match JSON_parse "{}" with Some v => Ok (Some v) | None => Throw SyntaxError end /\
  readTheoremCalloutTitle JSON_parse ("> [!math|" ++ "{}" ++ "]" ++ " Lemma ")
    = match JSON_parse "{}" with Some _ => Ok (Some (js_trim " Lemma ")) | None => Throw SyntaxError end.
Proof. apply readTheoremCallout_header; reflexivity. Defined.

(** From 1000 up, [toRomanUpper] writes one ["M"] per thousand before the
    numeral of the last three digits; once [n / 1000 + 1] is not an array
    length, [Array] throws a [RangeError]. *)
Theorem toRomanUpper_thousands_pos (n : Z) :
  (1000 <= n)%Z ->
  toRomanUpper n =
    if (n / 1000 + 1 <? 2 ^ 32)%Z then
      let! r := toRomanUpper (n mod 1000) in Ok (repeat_string (Z.to_nat (n / 1000)) "M" ++ r)
    else Throw RangeError.
Proof. apply toRomanUpper_thousands_split. Qed.

Lemma toRomanUpper_thousands_pos_witness :
  toRomanUpper 2024 =
    if (2024 / 1000 + 1 <? 2 ^ 32)%Z then
      let! r := toRomanUpper (2024 mod 1000) in Ok (repeat_string (Z.to_nat (2024 / 1000)) "M" ++ r)
    else Throw RangeError.
Proof. apply toRomanUpper_thousands_pos. lia. Defined.

(** A prefix that [inferNumberPrefix] returns always ends with [printSep]. *)
Theorem inferNumberPrefix_ends_with_printSep source parseSep printSep n p :
  inferNumberPrefix source parseSep printSep n = Ok (Some p) -> endsWith p printSep = true.
Proof. apply inferNumberPrefix_ends. Qed.

Lemma inferNumberPrefix_ends_with_printSep_witness : endsWith "1." "." = true.
Proof. apply (inferNumberPrefix_ends_with_printSep "1.2 foo" "." "." 1). reflexivity. Defined.

(** [getNumberPrefix] returns [numberPrefix] when it is set; otherwise
    the prefix it returns is empty or ends with [inferNumberPrefixPrintSep]. *)
Theorem getNumberPrefix_shape (file : tfile) (s : resolved) (p : string) :
  getNumberPrefix file s = Ok p ->
  (Prefix.truthy (s_numberPrefix s) = true /\ p = s_numberPrefix s) \/
  (Prefix.truthy (s_numberPrefix s) = false /\
   (p = "" \/ endsWith p (s_inferNumberPrefixPrintSep s) = true)).
Proof.
  unfold getNumberPrefix. destruct (Prefix.truthy (s_numberPrefix s)) eqn:Et.
  { intros H. injection H as <-. by left. }
  intros H. right. split; [done|].
  destruct (if Prefix.truthy (s_inferNumberPrefixFromProperty s) then _ else _) as [src|];
    [|injection H as <-; by left].
  destruct (s_inferNumberPrefix s && Prefix.truthy src); [|injection H as <-; by left].
  destruct (Prefix.inferNumberPrefix src _ _ _) as [[q|]|e] eqn:Ei; simpl in H; try discriminate;
    injection H as <-; [right; by apply inferNumberPrefix_ends in Ei|by left].
Qed.

Lemma getNumberPrefix_shape_witness :
  (Prefix.truthy (s_numberPrefix ScenarioTitle.settings_auto_unindexed) = true /\ "1." = s_numberPrefix ScenarioTitle.settings_auto_unindexed) \/
  (Prefix.truthy (s_numberPrefix ScenarioTitle.settings_auto_unindexed) = false /\
   ("1." = "" \/ endsWith "1." (s_inferNumberPrefixPrintSep ScenarioTitle.settings_auto_unindexed) = true)).
Proof. apply (getNumberPrefix_shape ScenarioTitle.file_ex). reflexivity. Defined.

End MoreExtras.

Module NumeralRangeClaims.
Import Numeral MoreFacts.

(** Claim C3 (as amended): for every integer [n], the arabic and
    alphabetic formatters return a string. The Roman formatters (upper
    and lower case) return a string exactly when
    [-1999 <= n <= -1000] or [-99 <= n < 4294967295000], and throw a
    [RangeError] for every other [n]. *)
Theorem numeral_formatters_all (n : Z) :
  (exists s, CONVERTER arabic n = Ok s) /\
  (exists s, CONVERTER alph n = Ok s) /\
  (exists s, CONVERTER Alph n = Ok s) /\
  ((exists s, CONVERTER Roman n = Ok s) <-> -1999 <= n <= -1000 \/ -99 <= n < 4294967295000) /\
  ((exists s, CONVERTER roman n = Ok s) <-> -1999 <= n <= -1000 \/ -99 <= n < 4294967295000) /\
  (forall e, CONVERTER Roman n = Throw e \/ CONVERTER roman n = Throw e -> e = RangeError).
Proof.
  destruct (toRomanUpper_all n) as [Hiff Herr].
  split; [eexists; reflexivity|]. split; [eexists; reflexivity|].
  split; [eexists; reflexivity|].
  simpl. unfold toRomanLower.
  split; [done|]. split.
  - rewrite <- Hiff. destruct (toRomanUpper n) as [s|e]; simpl.
    + split; intros _; eauto.
    + split; intros [? Hc]; discriminate Hc.
  - intros e [He|He]; [by apply Herr|].
    destruct (toRomanUpper n) as [s|e'] eqn:E; simpl in He; [discriminate|].
    injection He as <-. by apply Herr.
Qed.

End NumeralRangeClaims.
